(** * ignoregrets: the snapshot / restore engine

    A shallow embedding of the Go sources of ignoregrets (package
    [snapshot], package [config], [InstallHook] of package [git], and the
    [snapshot], [prune], [inspect], [status], [list] and [init] commands
    of package [cmd]) and the properties of its selector, naming scheme,
    file filter, archive codec, restore engine, retention pruner,
    configuration and reports.  Line numbers refer to
    [internal/config/config.go], in which the sources of package
    [snapshot] are found after those of package [config], to
    [cmd/prune.go], [cmd/snapshot.go], [internal/git/git.go], and to
    [unnamed/part_001] (list, init), [unnamed/part_003] (status) and
    [unnamed/part_004] (inspect).

    Conventions.
    - Go's [int] is [Z]; [len] of a slice is [Z.of_nat (length _)].
    - A Go function returning [(T, error)] returns an [outcome T]; a
      run-time panic (slice index out of range) is a third outcome.
    - A Go [map[string]bool] used as a set is a [gset string]; a
      [map[string]string] is a [gmap string string].  Iteration over a Go map
      has no defined order: where the order is observable it is a parameter
      constrained to be a permutation of the map's content.
    - Library calls whose internals the program does not depend on
      ([filepath.Match], [sha256], [encoding/json]) are interfaces (type
      classes); small executable instances are given for the examples. *)

From Stdlib Require Import ZArith Ascii String DecimalString.
From Stdlib.Strings Require Import Byte.
From stdpp Require Import gmap strings list sorting.

Local Open Scope string_scope.
Local Open Scope list_scope.
Set Warnings "-clear-no-such-hyp".

(** ** Errors and outcomes *)

(** One constructor per [fmt.Errorf] message of the sources. *)
Inductive error : Type :=
  | ErrListSnapshots                                (* "failed to list snapshots: ..." *)
  | ErrNoSnapshots (commit : string)                (* "no snapshots found for commit %s" *)
  | ErrIndexNotFound (index : Z) (commit : string)  (* "snapshot index %d not found for commit %s" *)
  | ErrOpenSnapshot                                 (* "failed to open snapshot: ..." *)
  | ErrGzipReader                                   (* "failed to create gzip reader: ..." *)
  | ErrTarHeader                                    (* "failed to read tar header: ..." *)
  | ErrParseManifest                                (* "failed to parse manifest: ..." *)
  | ErrManifestNotFound                             (* "manifest.json not found in snapshot" *)
  | ErrCommitMismatch (expected got : string)       (* "snapshot commit hash mismatch: expected %s, got %s" *)
  | ErrCreateDir (dir : string)                     (* "failed to create directory: %s: ..." *)
  | ErrCreateFile (name : string)                   (* "failed to create file: %s: ..." *)
  | ErrNoFiles                                      (* "no files to snapshot" *)
  | ErrAddFile (path : string)                      (* "failed to add file to archive: %s: ..." *)
  | ErrRetention                                    (* "retention must be greater than 0" *)
  | ErrDeleteSnapshot (file : string)               (* "failed to delete snapshot %s: ..." *)
  | ErrReadManifest (cause : error).                (* "failed to read manifest: ..." *)

(** [runtime error: index out of range [i] with length n]. *)
Inductive panic : Type :=
  | IndexOutOfRange (i : Z) (n : nat).

Inductive outcome (A : Type) : Type :=
  | Ok (a : A)
  | Err (e : error)
  | Panic (p : panic).
Arguments Ok {A} a.
Arguments Err {A} e.
Arguments Panic {A} p.

Definition returns {A} (o : outcome A) : Prop :=
  match o with Ok _ | Err _ => True | Panic _ => False end.

(** ** The fragment of Go's standard library the engine calls *)

Module Go.

(** [len(s)] *)
Definition len {A} (s : list A) : Z := Z.of_nat (length s).

(** [s[i]]: a checked access; outside [0 <= i < len(s)] the program
    panics. *)
Definition index {A} (s : list A) (i : Z) : outcome A :=
  if (i <? 0)%Z || (len s <=? i)%Z then Panic (IndexOutOfRange i (length s))
  else match s !! Z.to_nat i with
       | Some x => Ok x
       | None => Panic (IndexOutOfRange i (length s))
       end.

(** [s[n:]] for [0 <= n <= len(s)]. *)
Definition slice_from {A} (s : list A) (n : Z) : list A := drop (Z.to_nat n) s.

(** [fmt.Sprintf("%d", z)] *)
Definition fmt_d (z : Z) : string := NilZero.string_of_int (Z.to_int z).

(** [strings.HasSuffix] *)
Definition HasSuffix (s suf : string) : bool :=
  String.prefix (String.rev suf) (String.rev s).

(** [strings.Split(s, sep)] for a one-character separator. *)
Fixpoint Split (s : string) (sep : ascii) : list string :=
  match s with
  | EmptyString => [EmptyString]
  | String c s' =>
      if Ascii.eqb c sep then EmptyString :: Split s' sep
      else match Split s' sep with
           | [] => [String c EmptyString]
           | p :: ps => String c p :: ps
           end
  end.

(** Byte-wise lexicographic order of Go strings, descending. *)
Definition string_ge (a b : string) : Prop := String.le b a.
#[global] Instance string_ge_dec : RelDecision string_ge.
Proof. intros a b. unfold string_ge. apply _. Defined.
#[global] Instance string_ge_total : Total string_ge.
Proof. intros a b. unfold string_ge. destruct (total String.le a b); auto. Qed.
#[global] Instance string_ge_trans : Transitive string_ge.
Proof. intros a b c H1 H2. unfold string_ge in *. by etrans. Qed.
#[global] Instance string_ge_antisym : AntiSymm (=) string_ge.
Proof. intros a b H1 H2. unfold string_ge in *. by apply (anti_symm String.le). Qed.

(** [slices.Sort(names)] / [sort.Strings]: ascending. *)
Definition SortStrings (l : list string) : list string := merge_sort String.le l.
(** [sort.Sort(sort.Reverse(sort.StringSlice(l)))]: descending. *)
Definition SortStringsReverse (l : list string) : list string := merge_sort string_ge l.

(** [filepath.Join(dir, name)] for a clean [dir] and a plain [name]. *)
Definition Join (dir name : string) : string := dir +:+ "/" +:+ name.

(** The [w] low decimal digits of [n], most significant first. *)
Fixpoint fixedDigits (w : nat) (n : N) : string :=
  match w with
  | O => EmptyString
  | S w' =>
      fixedDigits w' (n / 10) +:+
      String (ascii_of_N (48 + n mod 10)) EmptyString
  end.

(** Zero padding to width [w], as [time.Format] prints calendar fields
    (its [appendInt]): a number of at most [w] digits is printed in
    exactly [w] digits, a larger one in full. *)
Definition zpad (w : nat) (n : N) : string :=
  if (n <? 10 ^ N.of_nat w)%N then fixedDigits w n
  else NilZero.string_of_uint (N.to_uint n).

End Go.

(** [filepath.Match(pattern, name)]: [Some b] is [(b, nil)], [None] is
    [(false, ErrBadPattern)]. *)
Class PathMatch := Match : string → string → option bool.

(** A matcher for the examples: literal characters, [?] and [*], neither
    of which matches the separator. *)
Fixpoint glob_match (p : string) (n : string) : bool :=
  match p with
  | EmptyString => match n with EmptyString => true | _ => false end
  | String "*" p' =>
      (fix star (n : string) : bool :=
         glob_match p' n ||
         match n with
         | EmptyString => false
         | String c n' => negb (Ascii.eqb c "/") && star n'
         end) n
  | String "?" p' =>
      match n with
      | EmptyString => false
      | String c n' => negb (Ascii.eqb c "/") && glob_match p' n'
      end
  | String a p' =>
      match n with
      | EmptyString => false
      | String c n' => Ascii.eqb a c && glob_match p' n'
      end
  end.

Definition simple_glob : PathMatch := fun p n => Some (glob_match p n).

(** [sha256.New(); io.Copy(h, r); h.Sum(nil)] *)
Class Digest := Sum256 : list byte → list byte.

(** ** Data model *)

(** [config.Config] *)
Record Config : Type := mkConfig {
  Retention : Z;
  SnapshotOn : list string;
  RestoreOn : list string;
  HooksEnabled : bool;
  Exclude : list string;
  Include : list string
}.

(** [config.DefaultConfig] *)
Definition DefaultConfig : Config :=
  {| Retention := 10; SnapshotOn := ["commit"]; RestoreOn := ["checkout"];
     HooksEnabled := false; Exclude := []; Include := [] |}.

(** A [time.Time] in UTC, by its calendar fields. *)
Record GoTime : Type := mkTime {
  Year : N; Month : N; Day : N; Hour : N; Minute : N; Second : N
}.

(** [snapshot.Manifest] *)
Record Manifest : Type := mkManifest {
  CommitHash : string;
  Timestamp : GoTime;
  Index : Z;
  Files : gmap string string;   (* path -> sha256 *)
  Cfg : Config
}.

(** [json.Marshal] / [json.Unmarshal] at type [Manifest], with the codec's
    contract that a marshalled manifest unmarshals to itself (paths are
    taken to be valid UTF-8, which JSON text requires). *)
Class JSON := {
  Marshal : Manifest → list byte;
  Unmarshal : list byte → option Manifest;
  Unmarshal_Marshal : ∀ m, Unmarshal (Marshal m) = Some m
}.

(** [tar.Header]: the fields the engine sets and reads. *)
Record Header : Type := mkHeader {
  Name : string;
  Mode : Z;
  Size : Z
}.

(** What [tr.Next()] yields: an entry with its body, or a read error. *)
Inductive tarItem : Type :=
  | TarEntry (hdr : Header) (body : list byte)
  | TarCorrupt.

(** An entry of the snapshots directory.  A regular file either is a gzip
    stream holding a tar sequence or is not one ([gzip.NewReader] fails). *)
Inductive dirent : Type :=
  | EntDir
  | EntFile (gz : option (list tarItem)).

(** A node of the working tree: a regular file or a directory (symbolic
    links are not modelled). *)
Inductive node : Type :=
  | File (mode : Z) (data : list byte)
  | Folder.

(** The state the engine acts on.  [tree] maps the paths of the working
    directory (as the archive names them, relative and clean) to their
    nodes; [snapshots] is the content of [.ignoregrets/snapshots], keyed by
    file name.  The two are kept apart: entries of an archive are taken not
    to name files inside the snapshots directory. *)
Record World : Type := mkWorld {
  tree : gmap string node;
  snapshots : gmap string dirent
}.

Definition manifestName : string := "manifest.json".
Definition snapshotsDir : string := Go.Join ".ignoregrets" "snapshots".

(** ** Snapshot naming ([CreateSnapshot], config.go 539-541) *)

(** [t.Format("20060102T1504")] *)
Definition formatTimestamp (t : GoTime) : string :=
  Go.zpad 4 (Year t) +:+ Go.zpad 2 (Month t) +:+ Go.zpad 2 (Day t) +:+ "T" +:+
  Go.zpad 2 (Hour t) +:+ Go.zpad 2 (Minute t).

(** [fmt.Sprintf("%s_%s_%d.tar.gz", commit, timestamp, index)] *)
Definition snapshotFileName (commit : string) (t : GoTime) (index : Z) : string :=
  commit +:+ "_" +:+ formatTimestamp t +:+ "_" +:+ Go.fmt_d index +:+ ".tar.gz".

(** The chronological + index order of naming keys: by calendar minute
    (what the name records of the time), then by index. *)
Definition minuteKey (t : GoTime) : list N :=
  [Year t; Month t; Day t; Hour t; Minute t].

Fixpoint lex_ltb (a b : list N) : bool :=
  match a, b with
  | x :: a', y :: b' => (x <? y)%N || ((x =? y)%N && lex_ltb a' b')
  | [], _ :: _ => true
  | _, _ => false
  end.

Definition key_ltb (k1 k2 : GoTime * Z) : bool :=
  lex_ltb (minuteKey k1.1) (minuteKey k2.1) ||
  (bool_decide (minuteKey k1.1 = minuteKey k2.1) && (k1.2 <? k2.2)%Z).

(** ** Selector *)

Section Selector.
Context `{PathMatch}.

(** [filepath.Glob(filepath.Join(dir, pattern))] on the snapshots
    directory: the pattern is checked for well-formedness, the names of
    the directory are read and sorted ascending, and every name the
    pattern matches is returned joined to the directory.  On a malformed
    pattern the matches found so far come back with the error. *)
Fixpoint glob (pattern : string) (names : list string) : list string * bool :=
  match names with
  | [] => ([], false)
  | n :: rest =>
      match Match pattern n with
      | None => ([], true)
      | Some matched =>
          let '(m, bad) := glob pattern rest in
          (if matched then Go.Join snapshotsDir n :: m else m, bad)
      end
  end.

Definition Glob (store : gmap string dirent) (pattern : string)
  : list string * bool :=
  match Match (Go.Join snapshotsDir pattern) EmptyString with
  | None => ([], true)
  | Some _ => glob pattern (Go.SortStrings (elements (dom store)))
  end.

(** [fmt.Sprintf("%s_*.tar.gz", commit)] *)
Definition snapshotPattern (commit : string) : string := commit +:+ "_*.tar.gz".

(** [getNextIndex] (config.go 752-758): the error of [Glob] is dropped. *)
Definition getNextIndex (store : gmap string dirent) (commit : string) : Z :=
  Go.len (Glob store (snapshotPattern commit)).1.

(** [findSnapshot] (config.go 760-778) *)
Definition findSnapshot (store : gmap string dirent) (commit : string) (index : Z)
  : outcome string :=
  let '(matches, bad) := Glob store (snapshotPattern commit) in
  if bad then Err ErrListSnapshots
  else if (Go.len matches =? 0)%Z then Err (ErrNoSnapshots commit)
  else if (index >=? Go.len matches)%Z then Err (ErrIndexNotFound index commit)
  else Go.index matches index.

(** The selection of [inspectCmd] (part_004 33-54), up to the path it
    opens. *)
Definition inspectSelect (store : gmap string dirent) (commitHash : string)
    (snapIndex : Z) : outcome string :=
  let '(matches, bad) := Glob store (snapshotPattern commitHash) in
  if bad then Err ErrListSnapshots
  else if (Go.len matches =? 0)%Z then Err (ErrNoSnapshots commitHash)
  else
    let matches := Go.SortStringsReverse matches in
    if (snapIndex >=? Go.len matches)%Z then Err (ErrIndexNotFound snapIndex commitHash)
    else Go.index matches snapIndex.

(** The selection of [findLatestSnapshot] (part_003 142-158), up to the
    path it opens. *)
Definition latestSelect (store : gmap string dirent) (commit : string)
  : outcome string :=
  let '(matches, bad) := Glob store (snapshotPattern commit) in
  if bad then Err ErrListSnapshots
  else if (Go.len matches =? 0)%Z then Err (ErrNoSnapshots commit)
  else Go.index (Go.SortStringsReverse matches) 0.

(** [os.Open(path)] for a path inside the snapshots directory. *)
Definition openSnapshot (store : gmap string dirent) (path : string) : option dirent :=
  let pre := snapshotsDir +:+ "/" in
  if String.prefix pre path
  then store !! String.substring (String.length pre)
                  (String.length path - String.length pre) path
  else None.
End Selector.

(** ** File filter ([filterFiles], config.go 713-750) *)

(** [filepath.Base]: trailing separators are dropped and the last element
    is returned; the empty path gives ["."], a path of separators only
    gives ["/"]. *)
Fixpoint trimLeadingSlashes (s : string) : string :=
  match s with
  | String "/" s' => trimLeadingSlashes s'
  | _ => s
  end.

Definition Base (path : string) : string :=
  if String.eqb path EmptyString then "."
  else
    let p := String.rev (trimLeadingSlashes (String.rev path)) in
    let elem := List.last (Go.Split p "/") EmptyString in
    if String.eqb elem EmptyString then "/" else elem.

(** The order in which [for k := range m] visits the keys of a Go map is
    not defined: it is some permutation of the keys. *)
Class MapOrder := {
  keysOf : gset string → list string;
  keysOf_perm : ∀ s, keysOf s ≡ₚ elements s
}.

Definition elements_order : MapOrder :=
  {| keysOf := elements; keysOf_perm := fun s => reflexivity _ |}.

Section Filter.
Context `{PathMatch}.

(** [matched, err := filepath.Match(pattern, filepath.Base(file));
    err == nil && matched] *)
Definition matchesBase (pattern file : string) : bool :=
  match Match pattern (Base file) with
  | Some true => true
  | _ => false
  end.

(** The inner loop over [cfg.Exclude], left at the first match. *)
Definition isExcluded (cfg : Config) (file : string) : bool :=
  existsb (fun pattern => matchesBase pattern file) (Exclude cfg).

(** First loop: every file no exclude pattern matches enters the map. *)
Definition addNotExcluded (files : list string) (cfg : Config)
    (included : gset string) : gset string :=
  foldl (fun inc file => if isExcluded cfg file then inc else {[file]} ∪ inc)
        included files.

(** Second loop: for each include pattern, every file it matches enters
    the map. *)
Definition addIncluded (files : list string) (cfg : Config)
    (included : gset string) : gset string :=
  foldl (fun inc pattern =>
           foldl (fun inc file =>
                    if matchesBase pattern file then {[file]} ∪ inc else inc)
                 inc files)
        included (Include cfg).

Definition includedMap (files : list string) (cfg : Config) : gset string :=
  addIncluded files cfg (addNotExcluded files cfg ∅).

(** The map is converted back to a slice by ranging over it. *)
Definition filterFiles `{MapOrder} (files : list string) (cfg : Config)
  : list string :=
  keysOf (includedMap files cfg).
End Filter.

(** ** Archive codec *)

(** [hex.EncodeToString] *)
Definition hexDigit (n : N) : ascii :=
  match String.get (N.to_nat n) "0123456789abcdef" with
  | Some c => c
  | None => "0"%char
  end.

Definition EncodeToString (bs : list byte) : string :=
  foldr (fun b acc =>
           let n := Byte.to_N b in
           String (hexDigit (n / 16)) (String (hexDigit (n mod 16)) acc))
        EmptyString bs.

Section Codec.
Context `{PathMatch} `{Digest} `{JSON} `{MapOrder}.

(** The scan shared by [ReadManifest] and [readManifestFromSnapshot]:
    entries are read until one is named [manifest.json]; its body is
    unmarshalled and returned. *)
Fixpoint scanManifest (items : list tarItem) : outcome Manifest :=
  match items with
  | [] => Err ErrManifestNotFound
  | TarCorrupt :: _ => Err ErrTarHeader
  | TarEntry hdr body :: rest =>
      if String.eqb (Name hdr) manifestName then
        match Unmarshal body with
        | Some manifest => Ok manifest
        | None => Err ErrParseManifest
        end
      else scanManifest rest
  end.

(** [ReadManifest] (config.go 474-508) *)
Definition ReadManifest (file : dirent) : outcome Manifest :=
  match file with
  | EntFile (Some items) => scanManifest items
  | _ => Err ErrGzipReader
  end.

(** [readManifestFromSnapshot] (config.go 583-617) *)
Definition readManifestFromSnapshot (file : dirent) : outcome Manifest :=
  match file with
  | EntFile (Some items) => scanManifest items
  | _ => Err ErrGzipReader
  end.

(** [addFileToArchive] (config.go 780-811): the file is opened, its
    header and bytes are written to the tar stream and, in the same
    pass, to the hash; the hex digest is stored under the path.  The tar
    writer is the list of items written so far. *)
Definition addFileToArchive (t : gmap string node) (tw : list tarItem)
    (path : string) (manifest : Manifest) : option (list tarItem * Manifest) :=
  match t !! path with
  | Some (File mode data) =>
      let hdr := {| Name := path; Mode := mode; Size := Go.len data |} in
      Some (tw ++ [TarEntry hdr data],
            {| CommitHash := CommitHash manifest;
               Timestamp := Timestamp manifest;
               Index := Index manifest;
               Files := <[path := EncodeToString (Sum256 data)]> (Files manifest);
               Cfg := Cfg manifest |})
  | _ => None
  end.

(** The loop of [CreateSnapshot] over the filtered files; it stops at the
    first file that cannot be added. *)
Fixpoint addFiles (t : gmap string node) (tw : list tarItem)
    (paths : list string) (manifest : Manifest)
  : list tarItem * Manifest * option error :=
  match paths with
  | [] => (tw, manifest, None)
  | path :: rest =>
      match addFileToArchive t tw path manifest with
      | None => (tw, manifest, Some (ErrAddFile path))
      | Some (tw', manifest') => addFiles t tw' rest manifest'
      end
  end.

(** The manifest entry, written after the files. *)
Definition manifestEntry (manifest : Manifest) : tarItem :=
  let manifestData := Marshal manifest in
  TarEntry {| Name := manifestName; Mode := 420 (* 0644 *);
              Size := Go.len manifestData |} manifestData.

(** [CreateSnapshot] (config.go 510-581).  [commit] and [ignored] are
    what [git.GetCurrentCommit] and [git.GetIgnoredFiles] returned, [now]
    is [time.Now().UTC()].  The snapshot file is created before the files
    are added, so a failure leaves the entries written so far. *)
Definition CreateSnapshot (commit : string) (ignored : list string)
    (now : GoTime) (cfg : Config) (w : World) : World * outcome unit :=
  let files := filterFiles ignored cfg in
  if (Go.len files =? 0)%Z then (w, Err ErrNoFiles)
  else
    let manifest := {| CommitHash := commit; Timestamp := now;
                       Index := getNextIndex (snapshots w) commit;
                       Files := ∅; Cfg := cfg |} in
    let name := snapshotFileName commit (Timestamp manifest) (Index manifest) in
    match addFiles (tree w) [] files manifest with
    | (tw, _, Some e) =>
        ({| tree := tree w;
            snapshots := <[name := EntFile (Some tw)]> (snapshots w) |}, Err e)
    | (tw, manifest', None) =>
        ({| tree := tree w;
            snapshots := <[name := EntFile (Some (tw ++ [manifestEntry manifest']))]>
                           (snapshots w) |}, Ok ())
    end.
End Codec.

(** ** Working-tree system calls *)

(** [filepath.Dir] on a clean slash-separated path: what precedes the last
    separator, ["."] when there is none, ["/"] for an entry of the root. *)
Fixpoint beforeLastSlash (s : string) : option string :=
  match s with
  | EmptyString => None
  | String c s' =>
      match beforeLastSlash s' with
      | Some d => Some (String c d)
      | None => if Ascii.eqb c "/" then Some EmptyString else None
      end
  end.

Definition Dir (path : string) : string :=
  match beforeLastSlash path with
  | None => "."
  | Some EmptyString => "/"
  | Some d => d
  end.

(** The directories [os.MkdirAll(path)] has to ensure, outermost first:
    ["a/b/c"] gives [["a"; "a/b"; "a/b/c"]]; ["."] and the root need
    nothing. *)
Fixpoint chainFrom (pre : string) (first : bool) (elems : list string) : list string :=
  match elems with
  | [] => []
  | e :: rest =>
      let p := if first then e else pre +:+ "/" +:+ e in
      if String.eqb e EmptyString || String.eqb e "."
      then chainFrom p false rest
      else p :: chainFrom p false rest
  end.

Definition dirChain (path : string) : list string :=
  chainFrom EmptyString true (Go.Split path "/").

(** [os.Stat(name)]: [true] when it returns no error. *)
Definition Stat (t : gmap string node) (name : string) : bool :=
  bool_decide (is_Some (t !! name)).

(** The slow path of [os.MkdirAll]: each directory of the chain is kept
    when present, created when absent; a regular file in the way is
    [ENOTDIR].  The directories made before a failure stay. *)
Fixpoint mkdirs (t : gmap string node) (ds : list string) : gmap string node * bool :=
  match ds with
  | [] => (t, true)
  | d :: rest =>
      match t !! d with
      | Some Folder => mkdirs t rest
      | Some (File _ _) => (t, false)
      | None => mkdirs (<[d := Folder]> t) rest
      end
  end.

(** [os.MkdirAll(path, 0755)]; the boolean is [err == nil]. *)
Definition MkdirAll (t : gmap string node) (path : string) : gmap string node * bool :=
  match t !! path with
  | Some Folder => (t, true)
  | Some (File _ _) => (t, false)
  | None => mkdirs t (dirChain path)
  end.

Definition isFolder (t : gmap string node) (path : string) : bool :=
  String.eqb path "." || String.eqb path "/" ||
  match t !! path with Some Folder => true | _ => false end.

(** [os.OpenFile(name, O_WRONLY|O_CREATE|O_TRUNC, mode)]: an existing
    regular file is truncated and keeps its mode, a missing one is created
    in its (existing) parent directory, a directory cannot be opened for
    writing. *)
Definition OpenFile (t : gmap string node) (name : string) (mode : Z)
  : option (gmap string node) :=
  match t !! name with
  | Some Folder => None
  | Some (File m _) => Some (<[name := File m []]> t)
  | None => if isFolder t (Dir name) then Some (<[name := File mode []]> t) else None
  end.

(** [io.Copy(f, tr)] into the file just opened. *)
Definition Copy (t : gmap string node) (name : string) (data : list byte)
  : gmap string node :=
  match t !! name with
  | Some (File m _) => <[name := File m data]> t
  | _ => t
  end.

(** ** Restore engine *)

(** The lines the engine prints. *)
Inductive message : Type :=
  | WouldSkip (name : string)      (* "Would skip existing file: %s" *)
  | Skipping (name : string)       (* "Skipping existing file: %s" *)
  | WouldRestore (name : string).  (* "Would restore: %s" *)

(** The effects of a run, in program order: lines printed and the calls
    that write to the working tree. *)
Inductive event : Type :=
  | Printf (m : message)
  | SysMkdirAll (dir : string)
  | SysOpenFile (name : string) (mode : Z)
  | SysCopy (name : string) (data : list byte).


(** What is done with an entry. *)
Inductive action : Type :=
  | ActRestore (name : string)
  | ActSkip (name : string).

#[global] Instance action_eq_dec : EqDecision action.
Proof. solve_decision. Defined.




(** [restoreFile] (config.go 619-659) *)
Definition restoreFile (t : gmap string node) (hdr : Header) (body : list byte)
    (dryRun force : bool) : gmap string node * list event * option error :=
  if String.eqb (Name hdr) manifestName then (t, [], None)
  else if Stat t (Name hdr) && negb force then
    (t, [Printf (if dryRun then WouldSkip (Name hdr) else Skipping (Name hdr))], None)
  else if dryRun then (t, [Printf (WouldRestore (Name hdr))], None)
  else
    let dir := Dir (Name hdr) in
    match MkdirAll t dir with
    | (t1, false) => (t1, [SysMkdirAll dir], Some (ErrCreateDir dir))
    | (t1, true) =>
        match OpenFile t1 (Name hdr) (Mode hdr) with
        | None =>
            (t1, [SysMkdirAll dir; SysOpenFile (Name hdr) (Mode hdr)],
             Some (ErrCreateFile (Name hdr)))
        | Some t2 =>
            (Copy t2 (Name hdr) body,
             [SysMkdirAll dir; SysOpenFile (Name hdr) (Mode hdr);
              SysCopy (Name hdr) body], None)
        end
    end.

(** The loop of [RestoreSnapshot] over [tr.Next()]. *)
Fixpoint restoreEntries (t : gmap string node) (items : list tarItem)
    (dryRun force : bool) : gmap string node * list event * option error :=
  match items with
  | [] => (t, [], None)
  | TarCorrupt :: _ => (t, [], Some ErrTarHeader)
  | TarEntry hdr body :: rest =>
      match restoreFile t hdr body dryRun force with
      | (t1, out1, Some e) => (t1, out1, Some e)
      | (t1, out1, None) =>
          let '(t2, out2, err) := restoreEntries t1 rest dryRun force in
          (t2, out1 ++ out2, err)
      end
  end.

Section RestoreEngine.
Context `{PathMatch} `{JSON}.

(** [RestoreSnapshot] (config.go 661-711) *)
Definition RestoreSnapshot (w : World) (commit : string) (index : Z)
    (force dryRun : bool) : World * list event * outcome unit :=
  match findSnapshot (snapshots w) commit index with
  | Panic p => (w, [], Panic p)
  | Err e => (w, [], Err e)
  | Ok snapshot =>
      match openSnapshot (snapshots w) snapshot with
      | None => (w, [], Err ErrOpenSnapshot)
      | Some file =>
          match readManifestFromSnapshot file with
          | Panic p => (w, [], Panic p)
          | Err e => (w, [], Err e)
          | Ok manifest =>
              if negb (String.eqb (CommitHash manifest) commit)
              then (w, [], Err (ErrCommitMismatch commit (CommitHash manifest)))
              else
                match file with
                | EntFile (Some items) =>
                    let '(t', out, err) := restoreEntries (tree w) items dryRun force in
                    ({| tree := t'; snapshots := snapshots w |}, out,
                     match err with Some e => Err e | None => Ok () end)
                | _ => (w, [], Err ErrGzipReader)
                end
          end
      end
  end.
End RestoreEngine.

(** ** Retention pruner ([pruneCmd], prune.go 25-79; console output is
    left out) *)

(** [os.Remove] may fail (permissions): [removable] tells for which names
    of the snapshots directory it succeeds. *)
Class RemoveOracle := removable : string → bool.

Section Prune.
Context `{MapOrder} `{RemoveOracle}.

(** The grouping loop over [os.ReadDir(dir)], which lists by ascending
    name: a regular file with suffix [.tar.gz] whose name has an
    underscore is appended to the group of what precedes its first
    underscore. *)
Definition groupStep (store : gmap string dirent)
    (groups : gmap string (list string)) (name : string)
  : gmap string (list string) :=
  match store !! name with
  | Some (EntFile _) =>
      if Go.HasSuffix name ".tar.gz" then
        let parts := Go.Split name "_" in
        if (Go.len parts >=? 2)%Z then
          match parts with
          | commit :: _ => <[commit := default [] (groups !! commit) ++ [name]]> groups
          | [] => groups
          end
        else groups
      else groups
  | _ => groups
  end.

Definition groupSnapshots (store : gmap string dirent) : gmap string (list string) :=
  foldl (groupStep store) ∅ (Go.SortStrings (elements (dom store))).

(** The deletion loop over [files[retention:]]; the first failure ends
    the command. *)
Fixpoint removeAll (store : gmap string dirent) (files : list string)
  : gmap string dirent * option error :=
  match files with
  | [] => (store, None)
  | file :: rest =>
      if removable file then removeAll (delete file store) rest
      else (store, Some (ErrDeleteSnapshot file))
  end.

(** One round of the loop over the groups. *)
Definition pruneGroup (retention : Z) (store : gmap string dirent)
    (files : list string) : gmap string dirent * option error :=
  let files := Go.SortStringsReverse files in
  if (Go.len files >? retention)%Z
  then removeAll store (Go.slice_from files retention)
  else (store, None).

Fixpoint pruneGroups (retention : Z) (groups : gmap string (list string))
    (commits : list string) (store : gmap string dirent)
  : gmap string dirent * option error :=
  match commits with
  | [] => (store, None)
  | commit :: rest =>
      match pruneGroup retention store (default [] (groups !! commit)) with
      | (store', Some e) => (store', Some e)
      | (store', None) => pruneGroups retention groups rest store'
      end
  end.

(** The command: [flag] is [--retention] (0 when absent), [cfg] what
    [config.LoadConfig] returned. *)
Definition pruneCmd (flag : Z) (cfg : Config) (store : gmap string dirent)
  : gmap string dirent * option error :=
  let retention := if (flag =? 0)%Z then Retention cfg else flag in
  if (retention <? 1)%Z then (store, Some ErrRetention)
  else
    let groups := groupSnapshots store in
    pruneGroups retention groups (keysOf (dom groups)) store.
End Prune.

(** ** Executable instances of the interfaces, for the examples *)

(** A stand-in for the digest: the length of the input and the exclusive
    or of its bytes.  (Nothing below depends on which function it is.) *)
Definition xor_digest : Digest := fun data =>
  match Byte.of_N (N.of_nat (length data) mod 256),
        Byte.of_N (foldr (fun b acc => N.lxor (Byte.to_N b) acc) 0%N data) with
  | Some a, Some b => [a; b]
  | _, _ => []
  end.

Definition always_removable : RemoveOracle := fun _ => true.

(** A lawful manifest codec: the manifest is numbered (it is a countable
    type) and the number is written in binary digits. *)
#[global] Instance GoTime_eq_dec : EqDecision GoTime.
Proof. solve_decision. Defined.
#[global] Instance Config_eq_dec : EqDecision Config.
Proof. solve_decision. Defined.
#[global] Instance Manifest_eq_dec : EqDecision Manifest.
Proof. solve_decision. Defined.

#[global] Instance GoTime_countable : Countable GoTime.
Proof.
  refine (inj_countable'
    (fun t => (Year t, Month t, Day t, Hour t, Minute t, Second t))
    (fun '(y, mo, d, h, mi, s) => mkTime y mo d h mi s) _).
  by intros [].
Defined.

#[global] Instance Config_countable : Countable Config.
Proof.
  refine (inj_countable'
    (fun c => (Retention c, SnapshotOn c, RestoreOn c, HooksEnabled c, Exclude c, Include c))
    (fun '(r, s, o, h, e, i) => mkConfig r s o h e i) _).
  by intros [].
Defined.

#[global] Instance Manifest_countable : Countable Manifest.
Proof.
  refine (inj_countable'
    (fun m => (CommitHash m, Timestamp m, Index m, Files m, Cfg m))
    (fun '(c, t, i, f, g) => mkManifest c t i f g) _).
  by intros [].
Defined.

Fixpoint pos_to_bytes (p : positive) : list byte :=
  match p with
  | xH => []
  | xO p => x30 :: pos_to_bytes p
  | xI p => x31 :: pos_to_bytes p
  end.

Fixpoint bytes_to_pos (bs : list byte) : option positive :=
  match bs with
  | [] => Some xH
  | x30 :: bs => xO <$> bytes_to_pos bs
  | x31 :: bs => xI <$> bytes_to_pos bs
  | _ => None
  end.

Program Definition binary_json : JSON :=
  {| Marshal m := pos_to_bytes (encode m);
     Unmarshal bs := bytes_to_pos bs ≫= decode |}.
Next Obligation.
  intros m. simpl.
  assert (∀ p, bytes_to_pos (pos_to_bytes p) = Some p) as Hbits.
  { induction p as [p IH|p IH|]; simpl; by rewrite ?IH. }
  rewrite Hbits. simpl. apply decode_encode.
Qed.

(** ** Notions used to state the properties *)

(** The body of the last entry of an archive stored under [path], among
    the entries a reader gets to. *)
Fixpoint lastBody (items : list tarItem) (path : string) : option (list byte) :=
  match items with
  | [] => None
  | TarCorrupt :: _ => None
  | TarEntry hdr body :: rest =>
      match lastBody rest path with
      | Some b => Some b
      | None => if String.eqb (Name hdr) path then Some body else None
      end
  end.


(** No name is repeated, and no name is a directory that the restoration
    of an earlier entry creates. *)
Fixpoint independentNames (names : list string) : Prop :=
  match names with
  | [] => True
  | n :: rest =>
      Forall (fun m => m ≠ n ∧ m ∉ dirChain (Dir n)) rest ∧ independentNames rest
  end.

#[global] Instance independentNames_dec names : Decision (independentNames names).
Proof. induction names; simpl; apply _. Defined.

Section Validated.
Context `{PathMatch} `{JSON}.

(** The part of [RestoreSnapshot] before its loop: the archive is
    located, opened, and its manifest is read and compared with the
    requested commit. *)
Definition validatedArchive (w : World) (commit : string) (index : Z)
  : outcome (list tarItem) :=
  match findSnapshot (snapshots w) commit index with
  | Panic p => Panic p
  | Err e => Err e
  | Ok snapshot =>
      match openSnapshot (snapshots w) snapshot with
      | None => Err ErrOpenSnapshot
      | Some file =>
          match readManifestFromSnapshot file with
          | Panic p => Panic p
          | Err e => Err e
          | Ok manifest =>
              if negb (String.eqb (CommitHash manifest) commit)
              then Err (ErrCommitMismatch commit (CommitHash manifest))
              else match file with
                   | EntFile (Some items) => Ok items
                   | _ => Err ErrGzipReader
                   end
          end
      end
  end.
End Validated.

Section Notions.
Context `{PathMatch}.

(** The names of the snapshots directory that the pattern of [commit]
    matches, in the ascending order in which [Glob] lists them. *)
Definition matchingNames (store : gmap string dirent) (commit : string) : list string :=
  filter (fun n => Match (snapshotPattern commit) n = Some true)
         (Go.SortStrings (elements (dom store))).

(** Whether some pattern of a list matches a base name without error. *)
Definition anyMatches (patterns : list string) (base : string) : bool :=
  existsb (fun pattern =>
             match Match pattern base with Some true => true | _ => false end)
          patterns.
End Notions.

(** The group in which [pruneCmd] files a name of the snapshots directory:
    a regular file with suffix [.tar.gz] whose name has an underscore goes
    under what precedes its first underscore; other entries have no
    group. *)
Definition archiveKey (store : gmap string dirent) (name : string) : option string :=
  match store !! name with
  | Some (EntFile _) =>
      if Go.HasSuffix name ".tar.gz" then
        match Go.Split name "_" with
        | commit :: _ :: _ => Some commit
        | _ => None
        end
      else None
  | _ => None
  end.

(** The archives of a commit on disk, by ascending name. *)
Definition archivesOf (store : gmap string dirent) (commit : string) : list string :=
  filter (fun n => archiveKey store n = Some commit)
         (Go.SortStrings (elements (dom store))).

(** The retention count [pruneCmd] works with. *)
Definition effectiveRetention (flag : Z) (cfg : Config) : Z :=
  if (flag =? 0)%Z then Retention cfg else flag.

(** A time whose calendar fields print in their fixed width. *)
Definition fixedWidthTime (t : GoTime) : Prop :=
  (Year t < 10000)%N ∧ (Month t < 100)%N ∧ (Day t < 100)%N ∧
  (Hour t < 100)%N ∧ (Minute t < 100)%N.

(** ** A worked repository *)

(** The scenario of the documentation: commit [abc123], ignored files
    [build/out.txt] and [.env], exclude pattern [*.log]. *)
Definition demoConfig : Config :=
  {| Retention := 10; SnapshotOn := ["commit"]; RestoreOn := ["checkout"];
     HooksEnabled := false; Exclude := ["*.log"]; Include := [".env"] |}.

Definition demoTree : gmap string node :=
  {[ "build" := Folder;
     "build/out.txt" := File 420 [x78];
     ".env" := File 384 [x79] ]}.

Definition demoIgnored : list string := ["build/out.txt"; ".env"].

Definition snapshotAt (now : GoTime) (w : World) : World :=
  (@CreateSnapshot simple_glob xor_digest binary_json elements_order
     "abc123" demoIgnored now demoConfig w).1.

Definition july26 : GoTime := mkTime 2025 7 26 2 33 0.
Definition july27 : GoTime := mkTime 2025 7 27 10 15 42.

Definition demoWorld0 : World := {| tree := demoTree; snapshots := ∅ |}.
(** Two snapshots of the same commit, a day apart. *)
Definition demoWorld2 : World := snapshotAt july27 (snapshotAt july26 demoWorld0).
(** Eleven snapshots of the same commit within one minute. *)
Definition demoWorld11 : World := Nat.iter 11 (snapshotAt july26) demoWorld0.

(** After one snapshot, the working tree has lost [build/] and holds
    another [.env]. *)
Definition restoreWorld : World :=
  {| tree := {[ ".env" := File 384 [x7a] ]};
     snapshots := snapshots (snapshotAt july26 demoWorld0) |}.

(** The archive of [abc123] filed under the name of another commit. *)
Definition renamedWorld : World :=
  {| tree := ∅;
     snapshots :=
       match snapshots (snapshotAt july26 demoWorld0)
               !! snapshotFileName "abc123" july26 0 with
       | Some f => {[ snapshotFileName "def456" july26 0 := f ]}
       | None => ∅
       end |}.

Definition renamedFile : dirent :=
  default EntDir (snapshots renamedWorld !! snapshotFileName "def456" july26 0).
Definition renamedManifest : Manifest :=
  match @readManifestFromSnapshot binary_json renamedFile with
  | Ok m => m
  | _ => mkManifest EmptyString july26 0 ∅ demoConfig
  end.



(** After one snapshot, [build] has become a regular file. *)
Definition blockedWorld : World :=
  {| tree := {[ "build" := File 420 [] ]};
     snapshots := snapshots (snapshotAt july26 demoWorld0) |}.

(** The manifest of an earlier snapshot of another commit, as it lies in
    the working tree after that archive was unpacked by hand. *)
Definition staleManifest : Manifest :=
  {| CommitHash := "0ld"; Timestamp := mkTime 2025 7 1 9 0 0; Index := 0;
     Files := {[ ".env" := "00" ]}; Cfg := DefaultConfig |}.

(** The candidates of the repository's own test, with a second exclude
    pattern that catches [.env]. *)
Definition testFiles : list string :=
  ["file1.txt"; "file2.log"; ".env"; "build/output.js"; "sub/.env"; ".env"].
Definition testConfig : Config :=
  {| Retention := 10; SnapshotOn := []; RestoreOn := []; HooksEnabled := false;
     Exclude := ["*.log"; ".*"]; Include := [".env"; "secrets.pem"] |}.

(** * The commands around the engine *)

(** ** Configuration ([LoadConfig], [SaveConfig], [ValidateConfig],
    config.go 33-111) *)

(** The errors of package [config]. *)
Inductive configError : Type :=
  | ErrCreateDefaultConfig     (* "failed to create default config: ..." *)
  | ErrReadConfig              (* "failed to read config file: ..." *)
  | ErrParseConfig             (* "failed to parse config file: ..." *)
  | ErrWriteConfig             (* "failed to write config file: ..." *)
  | ErrRetentionConfig         (* "retention must be greater than 0" *)
  | ErrInvalidSnapshotOn (event : string)   (* "invalid snapshot_on event: %s" *)
  | ErrInvalidRestoreOn (event : string).   (* "invalid restore_on event: %s" *)

(** [yaml.Marshal] / [yaml.Unmarshal] at type [Config], with the codec's
    contract that a marshalled configuration unmarshals to itself. *)
Class YAML := {
  yamlMarshal : Config → list byte;
  yamlUnmarshal : list byte → option Config;
  yamlUnmarshal_Marshal : ∀ c, yamlUnmarshal (yamlMarshal c) = Some c
}.

(** What is found at [.ignoregrets/config.yaml]: nothing, something that
    cannot be read as a file, or a file with its bytes. *)
Inductive configFile : Type :=
  | NoConfig
  | ConfigUnreadable
  | ConfigData (data : list byte).

(** The configuration file and whether it can be written. *)
Record ConfigStore : Type := mkConfigStore {
  cfgFile : configFile;
  cfgWritable : bool
}.

Section ConfigIO.
Context `{YAML}.

(** [SaveConfig] (config.go 72-85) *)
Definition SaveConfig (cfg : Config) (s : ConfigStore) : ConfigStore * option configError :=
  let data := yamlMarshal cfg in
  if cfgWritable s
  then ({| cfgFile := ConfigData data; cfgWritable := true |}, None)
  else (s, Some ErrWriteConfig).

(** [LoadConfig] (config.go 33-70) *)
Definition LoadConfig (s : ConfigStore) : ConfigStore * (configError + Config) :=
  match cfgFile s with
  | NoConfig =>
      let cfg := DefaultConfig in
      match SaveConfig cfg s with
      | (s', Some _) => (s', inl ErrCreateDefaultConfig)
      | (s', None) => (s', inr cfg)
      end
  | ConfigUnreadable => (s, inl ErrReadConfig)
  | ConfigData data =>
      match yamlUnmarshal data with
      | None => (s, inl ErrParseConfig)
      | Some cfg =>
          let cfg :=
            if (Retention cfg <=? 0)%Z
            then {| Retention := Retention DefaultConfig;
                    SnapshotOn := SnapshotOn cfg; RestoreOn := RestoreOn cfg;
                    HooksEnabled := HooksEnabled cfg;
                    Exclude := Exclude cfg; Include := Include cfg |}
            else cfg in
          let cfg :=
            if (Go.len (SnapshotOn cfg) =? 0)%Z
            then {| Retention := Retention cfg;
                    SnapshotOn := SnapshotOn DefaultConfig; RestoreOn := RestoreOn cfg;
                    HooksEnabled := HooksEnabled cfg;
                    Exclude := Exclude cfg; Include := Include cfg |}
            else cfg in
          let cfg :=
            if (Go.len (RestoreOn cfg) =? 0)%Z
            then {| Retention := Retention cfg;
                    SnapshotOn := SnapshotOn cfg; RestoreOn := RestoreOn DefaultConfig;
                    HooksEnabled := HooksEnabled cfg;
                    Exclude := Exclude cfg; Include := Include cfg |}
            else cfg in
          (s, inr cfg)
      end
  end.
End ConfigIO.

(** [validEvents[event]]: a missing key reads as [false]. *)
Definition validEvents : gmap string bool :=
  {[ "commit" := true; "checkout" := true ]}.

(** The loops over the event lists: the first event that is not valid is
    reported. *)
Fixpoint firstInvalid (events : list string) : option string :=
  match events with
  | [] => None
  | event :: rest =>
      if negb (default false (validEvents !! event)) then Some event
      else firstInvalid rest
  end.

(** [ValidateConfig] (config.go 87-111) *)
Definition ValidateConfig (cfg : Config) : option configError :=
  if (Retention cfg <? 1)%Z then Some ErrRetentionConfig
  else match firstInvalid (SnapshotOn cfg) with
       | Some event => Some (ErrInvalidSnapshotOn event)
       | None =>
           match firstInvalid (RestoreOn cfg) with
           | Some event => Some (ErrInvalidRestoreOn event)
           | None => None
           end
       end.

(** ** The commands around the configuration *)

Section Commands.
Context `{YAML} `{PathMatch} `{Digest} `{JSON} `{MapOrder} `{RemoveOracle}.

(** [snapshotCmd] (cmd/snapshot.go 19-30): on the left an error of package
    [config], on the right what [CreateSnapshot] returned. *)
Definition snapshotCmd (commit : string) (ignored : list string) (now : GoTime)
    (s : ConfigStore) (w : World)
  : ConfigStore * World * (configError + outcome unit) :=
  match LoadConfig s with
  | (s', inl e) => (s', w, inl e)
  | (s', inr cfg) =>
      match ValidateConfig cfg with
      | Some e => (s', w, inl e)
      | None =>
          let '(w', r) := CreateSnapshot commit ignored now cfg w in
          (s', w', inr r)
      end
  end.

(** The whole of [pruneCmd] (cmd/prune.go 25-79), with the configuration
    read first. *)
Definition pruneCmdRunE (flag : Z) (s : ConfigStore) (store : gmap string dirent)
  : ConfigStore * gmap string dirent * (configError + option error) :=
  match LoadConfig s with
  | (s', inl e) => (s', store, inl e)
  | (s', inr cfg) =>
      let '(store', r) := pruneCmd flag cfg store in
      (s', store', inr r)
  end.
End Commands.

(** ** Status report ([statusCmd], part_003 19-166) *)

(** [calculateChecksum] (part_003 126-139): the hex digest of a regular
    file; a missing path cannot be opened, a directory cannot be read. *)
Definition calculateChecksum `{Digest} (t : gmap string node) (path : string)
  : option string :=
  match t !! path with
  | Some (File _ data) => Some (EncodeToString (Sum256 data))
  | _ => None
  end.

(** The errors of [statusCmd]. *)
Inductive statusError : Type :=
  | ErrNoSnapshotForCommit                 (* "no snapshot found for current commit" *)
  | ErrCalculateChecksum (file : string).  (* "failed to calculate checksum for %s: ..." *)

(** The lines [statusCmd] prints. *)
Inductive statusLine : Type :=
  | SnapshotForCommit (commit : string)    (* "Snapshot for commit %s:" *)
  | UnchangedFiles                         (* "Unchanged files:" *)
  | ModifiedFiles                          (* "Modified files:" *)
  | NewFiles                               (* "New files:" *)
  | DeletedFiles                           (* "Deleted files:" *)
  | FileLine (file : string)               (* "  %s" *)
  | OldChecksum (sum : string)             (* "    Old checksum: %s" *)
  | NewChecksum (sum : string).            (* "    New checksum: %s" *)

(** The four slices of the comparison. *)
Record comparison : Type := mkComparison {
  unchanged : list string;
  modified : list string;
  added : list string;
  deleted : list string
}.

Inductive statusOutcome : Type :=
  | StatusDone (c : comparison) (out : list statusLine)
  | StatusFailed (e : statusError)
  | StatusPanic (p : panic).

Section Status.
Context `{PathMatch} `{Digest} `{JSON} `{MapOrder}.

(** [findLatestSnapshot] (part_003 142-166) *)
Definition findLatestSnapshot (store : gmap string dirent) (commit : string)
  : outcome Manifest :=
  match latestSelect store commit with
  | Panic p => Panic p
  | Err e => Err e
  | Ok path =>
      match openSnapshot store path with
      | None => Err ErrOpenSnapshot
      | Some file => ReadManifest file
      end
  end.

(** The loop that fills [currentChecksums] (part_003 53-60); on the left
    the file whose checksum could not be calculated. *)
Fixpoint checksumAll (t : gmap string node) (currentFiles : list string)
    (currentChecksums : gmap string string) : string + gmap string string :=
  match currentFiles with
  | [] => inr currentChecksums
  | file :: rest =>
      match calculateChecksum t file with
      | None => inl file
      | Some checksum => checksumAll t rest (<[file := checksum]> currentChecksums)
      end
  end.

(** One round of the loop over [snapshot.Files] (part_003 63-73). *)
Definition compareStep (snapshotFiles : gmap string string)
    (st : comparison * gmap string string) (file : string)
  : comparison * gmap string string :=
  let '(c, currentChecksums) := st in
  let snapshotChecksum := default EmptyString (snapshotFiles !! file) in
  let c' :=
    match currentChecksums !! file with
    | None =>
        {| unchanged := unchanged c; modified := modified c; added := added c;
           deleted := deleted c ++ [file] |}
    | Some currentChecksum =>
        if negb (String.eqb currentChecksum snapshotChecksum)
        then {| unchanged := unchanged c; modified := modified c ++ [file];
                added := added c; deleted := deleted c |}
        else {| unchanged := unchanged c ++ [file]; modified := modified c;
                added := added c; deleted := deleted c |}
    end in
  (c', delete file currentChecksums).

(** The comparison (part_003 46-84): the loop over the snapshot's files,
    the loop over what is left of [currentChecksums], and the four
    sorts.  The map is returned as the loops leave it. *)
Definition compareFiles (snapshotFiles currentChecksums : gmap string string)
  : comparison * gmap string string :=
  let '(c, currentChecksums) :=
    foldl (compareStep snapshotFiles)
          (mkComparison [] [] [] [], currentChecksums)
          (keysOf (dom snapshotFiles)) in
  let added := foldl (fun added file => added ++ [file]) (added c)
                     (keysOf (dom currentChecksums)) in
  ({| unchanged := Go.SortStrings (unchanged c);
      modified := Go.SortStrings (modified c);
      added := Go.SortStrings added;
      deleted := Go.SortStrings (deleted c) |}, currentChecksums).

(** The report (part_003 87-115). *)
Definition fileSection (heading : statusLine) (files : list string) : list statusLine :=
  if (Go.len files >? 0)%Z then heading :: (FileLine <$> files) else [].

Definition modifiedSection (verbose : bool)
    (snapshotFiles currentChecksums : gmap string string) (files : list string)
  : list statusLine :=
  if (Go.len files >? 0)%Z then
    ModifiedFiles ::
    mjoin ((fun file =>
              FileLine file ::
              if verbose
              then [OldChecksum (default EmptyString (snapshotFiles !! file));
                    NewChecksum (default EmptyString (currentChecksums !! file))]
              else []) <$> files)
  else [].

Definition statusLines (verbose : bool) (commit : string)
    (snapshotFiles currentChecksums : gmap string string) (c : comparison)
  : list statusLine :=
  SnapshotForCommit commit ::
  fileSection UnchangedFiles (unchanged c) ++
  modifiedSection verbose snapshotFiles currentChecksums (modified c) ++
  fileSection NewFiles (added c) ++
  fileSection DeletedFiles (deleted c).

(** [statusCmd] (part_003 27-118).  [commit] and [currentFiles] are what
    [git.GetCurrentCommit] and [git.GetIgnoredFiles] returned. *)
Definition statusCmd (verbose : bool) (commit : string) (currentFiles : list string)
    (w : World) : statusOutcome :=
  match findLatestSnapshot (snapshots w) commit with
  | Panic p => StatusPanic p
  | Err _ => StatusFailed ErrNoSnapshotForCommit
  | Ok snapshot =>
      match checksumAll (tree w) currentFiles ∅ with
      | inl file => StatusFailed (ErrCalculateChecksum file)
      | inr currentChecksums =>
          let '(c, currentChecksums) := compareFiles (Files snapshot) currentChecksums in
          StatusDone c (statusLines verbose commit (Files snapshot) currentChecksums c)
      end
  end.
End Status.

(** ** Listing ([listCmd], part_001 23-96) *)

(** [snapshotInfo] (part_001 30-35) *)
Record snapshotInfo : Type := mkSnapshotInfo {
  infoPath : string;
  infoCommit : string;
  infoTimestamp : GoTime;
  infoIndex : Z
}.

(** What [sort.Slice] asks of [less]. *)
Definition strictWeakOrder {A} (less : A → A → bool) : Prop :=
  (∀ a, less a a = false) ∧
  (∀ a b c, less a b = true → less b c = true → less a c = true) ∧
  (∀ a b c, less a b = false → less b c = false → less a c = false).

(** [sort.Slice(snapshots, less)]: the slice is permuted so that no
    element is less than one before it; the sort is not stable, so the
    order of elements neither of which is less than the other is not
    defined. *)
Class SliceSort := {
  sortSlice : (snapshotInfo → snapshotInfo → bool) → list snapshotInfo → list snapshotInfo;
  sortSlice_perm : ∀ less l, sortSlice less l ≡ₚ l;
  sortSlice_sorted : ∀ less l,
    strictWeakOrder less →
    StronglySorted (fun a b => less b a = false) (sortSlice less l)
}.

(** [t.Before(u)] *)
Definition Before (t u : GoTime) : bool :=
  lex_ltb [Year t; Month t; Day t; Hour t; Minute t; Second t]
          [Year u; Month u; Day u; Hour u; Minute u; Second u].

(** The [less] of [listCmd] (part_001 65-70). *)
Definition lessInfo (a b : snapshotInfo) : bool :=
  if negb (String.eqb (infoCommit a) (infoCommit b))
  then String.ltb (infoCommit a) (infoCommit b)
  else Before (infoTimestamp a) (infoTimestamp b).

(** [t.Format("2006-01-02 15:04:05")] *)
Definition formatDateTime (t : GoTime) : string :=
  Go.zpad 4 (Year t) +:+ "-" +:+ Go.zpad 2 (Month t) +:+ "-" +:+ Go.zpad 2 (Day t) +:+
  " " +:+ Go.zpad 2 (Hour t) +:+ ":" +:+ Go.zpad 2 (Minute t) +:+ ":" +:+
  Go.zpad 2 (Second t).

(** The lines [listCmd] prints, the warnings on standard error among
    them. *)
Inductive listLine : Type :=
  | WarnManifest (name : string) (e : error)
      (* "Warning: failed to read manifest from %s: %v" *)
  | NoSnapshotsFound                       (* "No snapshots found" *)
  | AvailableSnapshots                     (* "Available snapshots:" *)
  | Rule                                   (* "--------------------" *)
  | BlankLine
  | CommitLine (commit : string)           (* "Commit: %s" *)
  | EntryLine (index : Z) (time : string) (files : Z).
      (* "  [%d] %s (%d files)" *)

Section Listing.
Context `{JSON} `{SliceSort}.

(** The loop over [os.ReadDir(dir)] (part_001 40-62): a regular file with
    suffix [.tar.gz] is opened and its manifest read; a manifest that
    cannot be read gives a warning and the loop goes on. *)
Fixpoint collectSnapshots (store : gmap string dirent) (files : list string)
    (snapshots : list snapshotInfo)
  : outcome (list snapshotInfo * list listLine) :=
  match files with
  | [] => Ok (snapshots, [])
  | name :: rest =>
      match store !! name with
      | Some (EntFile gz) =>
          if Go.HasSuffix name ".tar.gz" then
            match ReadManifest (EntFile gz) with
            | Panic p => Panic p
            | Err e =>
                match collectSnapshots store rest snapshots with
                | Ok (snapshots', warnings) =>
                    Ok (snapshots', WarnManifest name e :: warnings)
                | other => other
                end
            | Ok manifest =>
                collectSnapshots store rest
                  (snapshots ++ [{| infoPath := name;
                                    infoCommit := CommitHash manifest;
                                    infoTimestamp := Timestamp manifest;
                                    infoIndex := Index manifest |}])
            end
          else collectSnapshots store rest snapshots
      | _ => collectSnapshots store rest snapshots
      end
  end.

(** The printing loop (part_001 80-93). *)
Fixpoint printSnapshots (currentCommit : string) (snapshots : list snapshotInfo)
  : list listLine :=
  match snapshots with
  | [] => []
  | s :: rest =>
      let entry :=
        EntryLine (infoIndex s) (formatDateTime (infoTimestamp s))
                  (Z.of_nat (String.length (infoPath s))) in
      if negb (String.eqb (infoCommit s) currentCommit) then
        (if negb (String.eqb currentCommit EmptyString) then [BlankLine] else []) ++
        CommitLine (infoCommit s) :: entry :: printSnapshots (infoCommit s) rest
      else entry :: printSnapshots currentCommit rest
  end.

(** [listCmd] (part_001 23-96) on a snapshots directory that can be
    read. *)
Definition listCmd (store : gmap string dirent) : outcome (list listLine) :=
  match collectSnapshots store (Go.SortStrings (elements (dom store))) [] with
  | Panic p => Panic p
  | Err e => Err e
  | Ok (snapshots, warnings) =>
      let snapshots := sortSlice lessInfo snapshots in
      if (Go.len snapshots =? 0)%Z then Ok (warnings ++ [NoSnapshotsFound])
      else Ok (warnings ++ AvailableSnapshots :: Rule ::
               printSnapshots EmptyString snapshots)
  end.
End Listing.

(** The archives of the directory whose manifest can be read, by
    ascending name, each with its manifest. *)
Definition readable `{JSON} (store : gmap string dirent) (name : string)
  : option (string * Manifest) :=
  match store !! name with
  | Some (EntFile gz) =>
      if Go.HasSuffix name ".tar.gz" then
        match ReadManifest (EntFile gz) with
        | Ok manifest => Some (name, manifest)
        | _ => None
        end
      else None
  | _ => None
  end.

Definition listed `{JSON} (store : gmap string dirent) : list (string * Manifest) :=
  omap (readable store) (Go.SortStrings (elements (dom store))).

(** The entry line of a listing. *)
Definition entryOf (line : listLine) : option (Z * string * Z) :=
  match line with
  | EntryLine index time files => Some (index, time, files)
  | _ => None
  end.

Definition headerOf (line : listLine) : option string :=
  match line with
  | CommitLine commit => Some commit
  | _ => None
  end.

(** ** Inspecting ([inspectCmd], part_004 23-98) *)

(** The lines [inspectCmd] prints. *)
Inductive inspectLine : Type :=
  | SnapshotDetails                        (* "Snapshot details:" and its rule *)
  | DetailCommit (commit : string)         (* "Commit:    %s" *)
  | DetailTimestamp (time : string)        (* "Timestamp: %s" *)
  | DetailIndex (index : Z)                (* "Index:     %d" *)
  | ConfigurationHeading                   (* "Configuration:" *)
  | DetailRetention (retention : Z)        (* "  Retention:     %d" *)
  | DetailSnapshotOn (events : list string) (* "  Snapshot on:   %v" *)
  | DetailRestoreOn (events : list string) (* "  Restore on:    %v" *)
  | DetailHooksEnabled (enabled : bool)    (* "  Hooks enabled: %v" *)
  | DetailExclude (patterns : list string) (* "  Exclude:       %v" *)
  | DetailInclude (patterns : list string) (* "  Include:       %v" *)
  | FilesTotal (total : Z)                 (* "Files (%d total):" *)
  | DetailFile (file : string)             (* "  %s" *)
  | DetailSHA256 (sum : string).           (* "    SHA256: %s" *)

Section Inspect.
Context `{PathMatch} `{JSON} `{MapOrder}.

(** The display of a manifest (part_004 66-96): the keys of the file
    table are collected by ranging over the map and sorted. *)
Definition inspectLines (verbose : bool) (manifest : Manifest) : list inspectLine :=
  let cfg := Cfg manifest in
  let files := foldl (fun files file => files ++ [file]) []
                     (keysOf (dom (Files manifest))) in
  let files := Go.SortStrings files in
  [SnapshotDetails;
   DetailCommit (CommitHash manifest);
   DetailTimestamp (formatDateTime (Timestamp manifest));
   DetailIndex (Index manifest);
   ConfigurationHeading;
   DetailRetention (Retention cfg);
   DetailSnapshotOn (SnapshotOn cfg);
   DetailRestoreOn (RestoreOn cfg);
   DetailHooksEnabled (HooksEnabled cfg)] ++
  (if (Go.len (Exclude cfg) >? 0)%Z then [DetailExclude (Exclude cfg)] else []) ++
  (if (Go.len (Include cfg) >? 0)%Z then [DetailInclude (Include cfg)] else []) ++
  FilesTotal (Go.len files) ::
  mjoin ((fun file =>
            DetailFile file ::
            if verbose
            then [DetailSHA256 (default EmptyString (Files manifest !! file))]
            else []) <$> files).

(** [inspectCmd] (part_004 23-98); [commitHash] is the [--commit] flag or
    what [git.GetCurrentCommit] returned. *)
Definition inspectCmd (commitHash : string) (snapIndex : Z) (verbose : bool)
    (store : gmap string dirent) : outcome (list inspectLine) :=
  match inspectSelect store commitHash snapIndex with
  | Panic p => Panic p
  | Err e => Err e
  | Ok path =>
      match openSnapshot store path with
      | None => Err ErrOpenSnapshot
      | Some file =>
          match ReadManifest file with
          | Panic p => Panic p
          | Err e => Err (ErrReadManifest e)
          | Ok manifest => Ok (inspectLines verbose manifest)
          end
      end
  end.
End Inspect.

(** The file lines of an inspection. *)
Definition detailFileOf (line : inspectLine) : option string :=
  match line with
  | DetailFile file => Some file
  | _ => None
  end.

(** ** Initialising ([initCmd], part_001 115-174; [InstallHook], git.go 64-85) *)

Definition nl : string := String "010"%char EmptyString.
Definition dquote : string := String "034"%char EmptyString.

(** The hook scripts of [initCmd] (part_001 141-145 and 151-158). *)
Definition preCommitHook : string :=
  "#!/bin/sh" +:+ nl +:+
  "# Created by ignoregrets" +:+ nl +:+
  "if command -v ignoregrets >/dev/null 2>&1; then" +:+ nl +:+
  "  ignoregrets snapshot" +:+ nl +:+
  "fi".

Definition postCheckoutHook : string :=
  "#!/bin/sh" +:+ nl +:+
  "# Created by ignoregrets" +:+ nl +:+
  "if command -v ignoregrets >/dev/null 2>&1; then" +:+ nl +:+
  "  ignoregrets restore --dry-run" +:+ nl +:+
  "  if [ $? -eq 0 ]; then" +:+ nl +:+
  "    echo " +:+ dquote +:+ "Run 'ignoregrets restore --force' to restore files" +:+
    dquote +:+ nl +:+
  "  fi" +:+ nl +:+
  "fi".

(** The errors of [InstallHook] and of [initCmd]. *)
Inductive hookError : Type :=
  | ErrGitDir            (* "failed to get git directory: ..." *)
  | ErrCreateHooksDir    (* "failed to create hooks directory: ..." *)
  | ErrWriteHook.        (* "failed to write hook file: ..." *)

Inductive initError : Type :=
  | ErrInitConfig (e : configError)
  | ErrInstallPreCommit (e : hookError)     (* "failed to install pre-commit hook: ..." *)
  | ErrInstallPostCheckout (e : hookError). (* "failed to install post-checkout hook: ..." *)

(** The lines [initCmd] prints. *)
Inductive initLine : Type :=
  | HooksInstalled       (* "Git hooks installed successfully" *)
  | Initialized          (* "Initialized ignoregrets successfully" *)
  | ConfigFileLine       (* "Config file: .ignoregrets/config.yaml" *)
  | HooksTip.            (* "Tip: Run 'ignoregrets init --hooks' to set up Git hooks" *)

(** The path of a hook under the git directory. *)
Definition hookPath (gitDir hookName : string) : string :=
  Go.Join (Go.Join gitDir "hooks") hookName.

(** [InstallHook] (git.go 64-85).  [gitDir] is what
    [git rev-parse --git-dir] printed, if it ran; [os.WriteFile] is
    [os.OpenFile] with [O_WRONLY|O_CREATE|O_TRUNC] and one write. *)
Definition InstallHook (gitDir : option string) (t : gmap string node)
    (hookName content : string) : gmap string node * option hookError :=
  match gitDir with
  | None => (t, Some ErrGitDir)
  | Some gitDir =>
      let hookPath := hookPath gitDir hookName in
      match MkdirAll t (Dir hookPath) with
      | (t1, false) => (t1, Some ErrCreateHooksDir)
      | (t1, true) =>
          match OpenFile t1 hookPath 493 (* 0755 *) with
          | None => (t1, Some ErrWriteHook)
          | Some t2 => (Copy t2 hookPath (list_byte_of_string content), None)
          end
      end
  end.

Section Init.
Context `{YAML}.

(** [initCmd] (part_001 123-173) *)
Definition initCmd (setupHooks : bool) (gitDir : option string)
    (s : ConfigStore) (t : gmap string node)
  : ConfigStore * gmap string node * list initLine * option initError :=
  match LoadConfig s with
  | (s1, inl e) => (s1, t, [], Some (ErrInitConfig e))
  | (s1, inr cfg) =>
      let '(s2, cfg, saved) :=
        if setupHooks then
          let cfg := {| Retention := Retention cfg; SnapshotOn := SnapshotOn cfg;
                        RestoreOn := RestoreOn cfg; HooksEnabled := true;
                        Exclude := Exclude cfg; Include := Include cfg |} in
          let '(s2, err) := SaveConfig cfg s1 in (s2, cfg, err)
        else (s1, cfg, None) in
      match saved with
      | Some e => (s2, t, [], Some (ErrInitConfig e))
      | None =>
          if HooksEnabled cfg then
            match InstallHook gitDir t "pre-commit" preCommitHook with
            | (t1, Some e) => (s2, t1, [], Some (ErrInstallPreCommit e))
            | (t1, None) =>
                match InstallHook gitDir t1 "post-checkout" postCheckoutHook with
                | (t2, Some e) => (s2, t2, [], Some (ErrInstallPostCheckout e))
                | (t2, None) =>
                    (s2, t2, [HooksInstalled; Initialized; ConfigFileLine], None)
                end
            end
          else (s2, t, [Initialized; ConfigFileLine; HooksTip], None)
      end
  end.
End Init.

(** ** Notions used to state the further properties *)

(** The entry that [addFileToArchive] writes for a path of the working
    tree. *)
Definition fileEntry (t : gmap string node) (path : string) : option tarItem :=
  match t !! path with
  | Some (File mode data) =>
      Some (TarEntry {| Name := path; Mode := mode; Size := Go.len data |} data)
  | _ => None
  end.

(** How a file of the snapshot compares with the checksums of the
    working tree. *)
Inductive fileState : Type := StUnchanged | StModified | StDeleted.

#[global] Instance fileState_eq_dec : EqDecision fileState.
Proof. solve_decision. Defined.

Definition classify (snapshotFiles currentChecksums : gmap string string)
    (file : string) : fileState :=
  match currentChecksums !! file with
  | None => StDeleted
  | Some currentChecksum =>
      if negb (String.eqb currentChecksum (default EmptyString (snapshotFiles !! file)))
      then StModified else StUnchanged
  end.

(** The commit lines a listing prints for a sequence of commits: one
    where the commit changes. *)
Fixpoint commitChanges (currentCommit : string) (commits : list string) : list string :=
  match commits with
  | [] => []
  | c :: rest =>
      if negb (String.eqb c currentCommit) then c :: commitChanges c rest
      else commitChanges currentCommit rest
  end.

(** A codec for configurations, as [binary_json] is one for manifests. *)
Program Definition binary_yaml : YAML :=
  {| yamlMarshal c := pos_to_bytes (encode c);
     yamlUnmarshal bs := bytes_to_pos bs ≫= decode |}.
Next Obligation.
  intros c. simpl.
  assert (∀ p, bytes_to_pos (pos_to_bytes p) = Some p) as Hbits.
  { induction p as [p IH|p IH|]; simpl; by rewrite ?IH. }
  rewrite Hbits. simpl. apply decode_encode.
Qed.

(** A configuration file that sets only the patterns. *)
Definition sparseConfig : Config :=
  {| Retention := 0; SnapshotOn := []; RestoreOn := [];
     HooksEnabled := true; Exclude := ["*.log"]; Include := [] |}.
Definition sparseStore : ConfigStore :=
  {| cfgFile := ConfigData (@yamlMarshal binary_yaml sparseConfig); cfgWritable := false |}.
Definition sparseLoaded : Config :=
  {| Retention := 10; SnapshotOn := ["commit"]; RestoreOn := ["checkout"];
     HooksEnabled := true; Exclude := ["*.log"]; Include := [] |}.
Definition freshStore : ConfigStore := {| cfgFile := NoConfig; cfgWritable := true |}.

(** A configuration that keeps dot files out of the snapshot. *)
Definition hiddenConfig : Config :=
  {| Retention := 10; SnapshotOn := ["commit"]; RestoreOn := ["checkout"];
     HooksEnabled := false; Exclude := [".*"]; Include := [] |}.
Definition hiddenWorld : World :=
  (@CreateSnapshot simple_glob xor_digest binary_json elements_order
     "abc123" demoIgnored july26 hiddenConfig demoWorld0).1.

(** A sort for [sort.Slice]: merge sort on "not less the other way". *)
Definition notAfter (less : snapshotInfo → snapshotInfo → bool) : relation snapshotInfo :=
  fun a b => less b a = false.

#[global] Instance notAfter_dec less : RelDecision (notAfter less).
Proof. intros a b. unfold notAfter. apply _. Defined.

Program Definition merge_slice_sort : SliceSort :=
  {| sortSlice less l := merge_sort (notAfter less) l |}.
Next Obligation. intros less l. apply merge_sort_Permutation. Qed.
Next Obligation.
  intros less l (Hirr & Htr & Hneg).
  assert (Total (notAfter less)) as Htotal.
  { intros a b. unfold notAfter. destruct (less b a) eqn:Hba; [|by left]. right.
    destruct (less a b) eqn:Hab; [|done].
    pose proof (Htr _ _ _ Hab Hba) as Haa. by rewrite Hirr in Haa. }
  assert (Transitive (notAfter less)) as Htrans.
  { intros a b c Hab Hbc. unfold notAfter in *. by eapply Hneg. }
  by apply (StronglySorted_merge_sort (notAfter less)).
Qed.


(** * Properties *)

(** ** The library fragment on small inputs *)

Example snapshotFileName_documented :
  snapshotFileName "abc123" (mkTime 2025 7 26 2 33 0) 0 = "abc123_20250726T0233_0.tar.gz".
Proof. reflexivity. Qed.

Example zpad_examples :
  Go.zpad 4 2025 = "2025" ∧ Go.zpad 2 7 = "07" ∧ Go.zpad 4 12345 = "12345" ∧
  Go.fmt_d 10 = "10" ∧ Go.fmt_d 0 = "0".
Proof. repeat split; reflexivity. Qed.

Example Split_examples :
  Go.Split "abc123_20250726T0233_0.tar.gz" "_" = ["abc123"; "20250726T0233"; "0.tar.gz"] ∧
  Go.Split "notes.tar.gz" "_" = ["notes.tar.gz"] ∧
  Go.Split EmptyString "_" = [EmptyString].
Proof. repeat split; reflexivity. Qed.

Example Base_examples :
  Base "build/output.js" = "output.js" ∧ Base ".env" = ".env" ∧
  Base "logs/" = "logs" ∧ Base EmptyString = "." ∧ Base "//" = "/".
Proof. repeat split; reflexivity. Qed.

Example Dir_examples :
  Dir "build/out.txt" = "build" ∧ Dir ".env" = "." ∧ Dir "/etc" = "/" ∧
  dirChain "a/b/c" = ["a"; "a/b"; "a/b/c"] ∧ dirChain "." = [].
Proof. repeat split; reflexivity. Qed.

Example glob_match_examples :
  glob_match "*.log" "file2.log" = true ∧ glob_match "*.log" "file1.txt" = false ∧
  glob_match "abc123_*.tar.gz" "abc123_20250726T0233_0.tar.gz" = true ∧
  glob_match "abc123_*.tar.gz" "abc1234_20250726T0233_0.tar.gz" = false ∧
  glob_match "*" "a/b" = false.
Proof. repeat split; reflexivity. Qed.

Example EncodeToString_example : EncodeToString [x00; x0f; xa5; xff] = "000fa5ff".
Proof. reflexivity. Qed.

Example sort_examples :
  Go.SortStrings ["b"; "a_2"; "a_10"] = ["a_10"; "a_2"; "b"] ∧
  Go.SortStringsReverse ["b"; "a_2"; "a_10"] = ["b"; "a_2"; "a_10"].
Proof. repeat split; reflexivity. Qed.

(** ** Snapshot names *)

Lemma Split_app_sep (commit rest : string) :
  Forall (fun c => c ≠ "_"%char) (list_ascii_of_string commit) →
  Go.Split (commit +:+ "_" +:+ rest) "_" = commit :: Go.Split rest "_".
Proof.
  induction commit as [|c commit IH]; simpl; intros Hc.
  - done.
  - apply Forall_cons in Hc as [Hne Hc]. rewrite (IH Hc).
    by destruct (Ascii.eqb_spec c "_").
Qed.

Lemma Split_nonempty (s : string) (sep : ascii) : Go.Split s sep ≠ [].
Proof.
  destruct s as [|c s]; simpl; [done|].
  destruct (Ascii.eqb c sep); [done|]. by destruct (Go.Split s sep).
Qed.

Lemma string_app_assoc (a b c : string) : (a +:+ b) +:+ c = a +:+ (b +:+ c).
Proof.
  induction a as [|x a IH]; [done|].
  change (String x ((a +:+ b) +:+ c) = String x (a +:+ b +:+ c)). by rewrite IH.
Qed.

Lemma rev_app_app (a b c : string) :
  String.rev_app (a +:+ b) c = String.rev_app b (String.rev_app a c).
Proof. revert c. induction a as [|x a IH]; intros c; simpl; [done|apply IH]. Qed.

Lemma rev_app_acc (s acc : string) :
  String.rev_app s acc = String.rev_app s EmptyString +:+ acc.
Proof.
  revert acc. induction s as [|x s IH]; intros acc; simpl; [done|].
  rewrite IH, (IH (String x EmptyString)). by rewrite string_app_assoc.
Qed.

Lemma prefix_app (p s : string) : String.prefix p (p +:+ s) = true.
Proof.
  induction p as [|x p IH]; simpl; [by destruct s|].
  by destruct (ascii_dec x x).
Qed.

Lemma HasSuffix_app (x suf : string) : Go.HasSuffix (x +:+ suf) suf = true.
Proof.
  unfold Go.HasSuffix, String.rev.
  rewrite rev_app_app, (rev_app_acc suf (String.rev_app x EmptyString)).
  apply prefix_app.
Qed.

(** A name written by [CreateSnapshot] for a commit without underscore (a
    hexadecimal hash) is filed by [pruneCmd] under that commit. *)
Lemma archiveKey_snapshotFileName store commit t index gz :
  Forall (fun c => c ≠ "_"%char) (list_ascii_of_string commit) →
  store !! snapshotFileName commit t index = Some (EntFile gz) →
  archiveKey store (snapshotFileName commit t index) = Some commit.
Proof.
  intros Hc Hs. unfold archiveKey. rewrite Hs.
  assert (Go.HasSuffix (snapshotFileName commit t index) ".tar.gz" = true) as ->.
  { unfold snapshotFileName. rewrite <- !string_app_assoc. apply HasSuffix_app. }
  unfold snapshotFileName. rewrite (Split_app_sep _ _ Hc).
  pose proof (Split_nonempty
    (formatTimestamp t +:+ "_" +:+ Go.fmt_d index +:+ ".tar.gz") "_") as Hne.
  by destruct (Go.Split _ "_").
Qed.

Lemma ascii_compare_refl (c : ascii) : Ascii.compare c c = Eq.
Proof. unfold Ascii.compare. apply N.compare_refl. Qed.

Lemma string_length_app (a b : string) :
  String.length (a +:+ b) = (String.length a + String.length b)%nat.
Proof.
  induction a as [|x a IH]; [done|].
  change (S (String.length (a +:+ b)) = S (String.length a + String.length b)).
  by rewrite IH.
Qed.

Lemma compare_app_same (a s t : string) :
  String.compare (a +:+ s) (a +:+ t) = String.compare s t.
Proof.
  induction a as [|x a IH]; [done|].
  change (match Ascii.compare x x with
          | Eq => String.compare (a +:+ s) (a +:+ t)
          | o => o
          end = String.compare s t).
  by rewrite ascii_compare_refl.
Qed.

Lemma compare_app_lt (a b s t : string) :
  String.length a = String.length b →
  String.compare a b = Lt →
  String.compare (a +:+ s) (b +:+ t) = Lt.
Proof.
  revert b. induction a as [|x a IH]; intros [|y b] Hlen Hlt; try done.
  simpl in Hlen, Hlt.
  change (match Ascii.compare x y with
          | Eq => String.compare (a +:+ s) (b +:+ t)
          | o => o
          end = Lt).
  destruct (Ascii.compare x y); [|done..]. apply IH; [lia|done].
Qed.

Lemma compare_lt_trans (a b c : string) :
  String.compare a b = Lt → String.compare b c = Lt → String.compare a c = Lt.
Proof.
  revert b c. induction a as [|x a IH]; intros [|y b] [|z c]; simpl; try done.
  destruct (Ascii.compare x y) eqn:Hxy; [|clear IH|done].
  - apply Ascii.compare_eq_iff in Hxy as ->.
    destruct (Ascii.compare y z); [apply IH|done..].
  - intros _. destruct (Ascii.compare y z) eqn:Hyz; [| |done].
    + apply Ascii.compare_eq_iff in Hyz as <-. by rewrite Hxy.
    + intros _. unfold Ascii.compare in *.
      rewrite N.compare_lt_iff in Hxy, Hyz.
      assert ((N_of_ascii x ?= N_of_ascii z)%N = Lt) as ->; [|done].
      apply N.compare_lt_iff. lia.
Qed.

Lemma fixedDigits_length (w : nat) (n : N) :
  String.length (Go.fixedDigits w n) = w.
Proof.
  revert n. induction w as [|w IH]; intros n; simpl; [done|].
  rewrite string_length_app, IH. simpl. lia.
Qed.

Lemma digit_lt (a b : N) :
  (a < b)%N → (b < 10)%N →
  String.compare (String (ascii_of_N (48 + a)) EmptyString)
                 (String (ascii_of_N (48 + b)) EmptyString) = Lt.
Proof.
  intros Hab Hb. simpl. unfold Ascii.compare.
  rewrite !N_ascii_embedding by lia.
  assert ((48 + a ?= 48 + b)%N = Lt) as ->; [|done].
  apply N.compare_lt_iff. lia.
Qed.

(** Numbers of at most [w] digits order as their [w]-digit prints. *)
Lemma fixedDigits_lt (w : nat) (n m : N) :
  (n < m)%N → (m < 10 ^ N.of_nat w)%N →
  String.compare (Go.fixedDigits w n) (Go.fixedDigits w m) = Lt.
Proof.
  revert n m. induction w as [|w IH]; intros n m Hnm Hm.
  - simpl in Hm. lia.
  - simpl.
    assert (10 ^ N.of_nat (S w) = 10 * 10 ^ N.of_nat w)%N as Hpow.
    { rewrite Nat2N.inj_succ. apply N.pow_succ_r'. }
    rewrite Hpow in Hm. clear Hpow. generalize dependent (10 ^ N.of_nat w)%N.
    intros P IH Hm.
    assert (10 ≠ 0)%N as H10 by done.
    pose proof (N.div_mod n 10 H10) as Hn10. pose proof (N.div_mod m 10 H10) as Hm10.
    pose proof (N.mod_lt n 10 H10) as Hnr. pose proof (N.mod_lt m 10 H10) as Hmr.
    generalize dependent (n / 10)%N. generalize dependent (m / 10)%N.
    generalize dependent (n mod 10)%N. generalize dependent (m mod 10)%N.
    intros rm rn Hrn Hrm qm Hqm qn Hqn.
    destruct (decide (qn = qm)%N) as [Heq|Hne].
    + rewrite Heq, compare_app_same. apply digit_lt; lia.
    + apply compare_app_lt; [by rewrite !fixedDigits_length|].
      apply IH; lia.
Qed.

Lemma zpad_width (w : nat) (n : N) :
  (n < 10 ^ N.of_nat w)%N → String.length (Go.zpad w n) = w.
Proof.
  intros Hn. unfold Go.zpad. destruct (N.ltb_spec n (10 ^ N.of_nat w)); [|lia].
  apply fixedDigits_length.
Qed.

Lemma zpad_lt (w : nat) (n m : N) :
  (n < m)%N → (m < 10 ^ N.of_nat w)%N →
  String.compare (Go.zpad w n) (Go.zpad w m) = Lt.
Proof.
  intros Hnm Hm. unfold Go.zpad.
  destruct (N.ltb_spec n (10 ^ N.of_nat w)); [|lia].
  destruct (N.ltb_spec m (10 ^ N.of_nat w)); [|lia].
  by apply fixedDigits_lt.
Qed.

Lemma zpad2_width n : (n < 100)%N → String.length (Go.zpad 2 n) = 2%nat.
Proof. apply (zpad_width 2). Qed.

Lemma zpad4_width n : (n < 10000)%N → String.length (Go.zpad 4 n) = 4%nat.
Proof. apply (zpad_width 4). Qed.

Lemma zpad2_lt n m :
  (n < m)%N → (m < 100)%N → String.compare (Go.zpad 2 n) (Go.zpad 2 m) = Lt.
Proof. apply (zpad_lt 2). Qed.

Lemma zpad4_lt n m :
  (n < m)%N → (m < 10000)%N → String.compare (Go.zpad 4 n) (Go.zpad 4 m) = Lt.
Proof. apply (zpad_lt 4). Qed.

Lemma formatTimestamp_length t :
  fixedWidthTime t → String.length (formatTimestamp t) = 13%nat.
Proof.
  intros (HY & HM & HD & Hh & Hm). unfold formatTimestamp.
  rewrite !string_length_app, zpad4_width, !zpad2_width by done. reflexivity.
Qed.

(** One field of the time stamp: the smaller number gives the smaller
    string; with equal numbers the rest decides. *)
Lemma field_lt (f : N → string) (B : N) (wd : nat) (x y : N) (r : bool) (s t : string) :
  (∀ n, (n < B)%N → String.length (f n) = wd) →
  (∀ n m, (n < m)%N → (m < B)%N → String.compare (f n) (f m) = Lt) →
  (x < B)%N → (y < B)%N →
  (x <? y)%N || ((x =? y)%N && r) = true →
  (r = true → String.compare s t = Lt) →
  String.compare (f x +:+ s) (f y +:+ t) = Lt.
Proof.
  intros Hwd Hlt Hx Hy Hc Hr.
  destruct (N.ltb_spec x y) as [Hxy|_].
  - apply compare_app_lt; [by rewrite !Hwd|by apply Hlt].
  - destruct (N.eqb_spec x y) as [->|_]; [|done].
    rewrite compare_app_same. auto.
Qed.

(** The time stamp of a name orders as the calendar minute does. *)
Lemma formatTimestamp_lt t1 t2 :
  fixedWidthTime t1 → fixedWidthTime t2 →
  lex_ltb (minuteKey t1) (minuteKey t2) = true →
  String.compare (formatTimestamp t1) (formatTimestamp t2) = Lt.
Proof.
  intros (HY1 & HM1 & HD1 & Hh1 & Hm1) (HY2 & HM2 & HD2 & Hh2 & Hm2).
  unfold minuteKey, formatTimestamp. simpl. intros Hlex.
  eapply (field_lt _ 10000 4); [apply zpad4_width|apply zpad4_lt|done..|]. intros HM.
  eapply (field_lt _ 100 2); [apply zpad2_width|apply zpad2_lt|done..|]. intros HD.
  eapply (field_lt _ 100 2); [apply zpad2_width|apply zpad2_lt|done..|]. intros Hh.
  rewrite (compare_app_same "T").
  eapply (field_lt _ 100 2); [apply zpad2_width|apply zpad2_lt|done..|]. intros Hm.
  rewrite andb_false_r, orb_false_r in Hm. apply N.ltb_lt in Hm.
  by apply zpad2_lt.
Qed.

(** Between snapshots of one commit taken in different minutes, the order
    of the file names is the order of the times, whatever the indices. *)
Lemma snapshotFileName_time_order commit t1 t2 (i1 i2 : Z) :
  fixedWidthTime t1 → fixedWidthTime t2 →
  lex_ltb (minuteKey t1) (minuteKey t2) = true →
  key_ltb (t1, i1) (t2, i2) = true ∧
  String.ltb (snapshotFileName commit t1 i1) (snapshotFileName commit t2 i2) = true.
Proof.
  intros Hv1 Hv2 Hlt. split; [unfold key_ltb; cbn [fst snd]; by rewrite Hlt|].
  unfold String.ltb, snapshotFileName.
  rewrite compare_app_same, (compare_app_same "_").
  rewrite compare_app_lt; [done| |by apply formatTimestamp_lt].
  by rewrite !formatTimestamp_length.
Qed.

(** Within one minute the indices decide, through their decimal print. *)
Lemma snapshotFileName_same_minute commit t (i1 i2 : Z) :
  String.compare (snapshotFileName commit t i1) (snapshotFileName commit t i2) =
  String.compare (Go.fmt_d i1 +:+ ".tar.gz") (Go.fmt_d i2 +:+ ".tar.gz").
Proof.
  unfold snapshotFileName.
  by rewrite compare_app_same, (compare_app_same "_"), compare_app_same,
    (compare_app_same "_").
Qed.

(** Up to ten snapshots of a commit in a minute, the names order as the
    indices do. *)
Lemma snapshotFileName_index_order_small commit t (i1 i2 : Z) :
  (0 ≤ i1 < i2)%Z → (i2 ≤ 9)%Z →
  String.ltb (snapshotFileName commit t i1) (snapshotFileName commit t i2) = true.
Proof.
  intros Hi1 Hi2. unfold String.ltb. rewrite snapshotFileName_same_minute.
  assert (i1 ∈ (Z.of_nat <$> seq 0 10)) as Hin1.
  { apply list_elem_of_fmap. exists (Z.to_nat i1). split; [lia|]. apply elem_of_seq. lia. }
  assert (i2 ∈ (Z.of_nat <$> seq 0 10)) as Hin2.
  { apply list_elem_of_fmap. exists (Z.to_nat i2). split; [lia|]. apply elem_of_seq. lia. }
  assert (forallb (fun a => forallb (fun b =>
            implb (a <? b)%Z
              (String.ltb (Go.fmt_d a +:+ ".tar.gz") (Go.fmt_d b +:+ ".tar.gz")))
            (Z.of_nat <$> seq 0 10)) (Z.of_nat <$> seq 0 10) = true) as Htab
    by (vm_compute; reflexivity).
  rewrite forallb_forall in Htab. apply list_elem_of_In in Hin1, Hin2.
  specialize (Htab _ Hin1). rewrite forallb_forall in Htab. specialize (Htab _ Hin2).
  destruct (Z.ltb_spec i1 i2); [|lia]. simpl in Htab. unfold String.ltb in Htab.
  by destruct (String.compare _ _).
Qed.

(** ** Sorted lists *)

Lemma StronglySorted_sublist {A} (R : relation A) (l k : list A) :
  l `sublist_of` k → StronglySorted R k → StronglySorted R l.
Proof.
  induction 1 as [|x l k Hlk IH|x l k Hlk IH]; intros Hk; [done|..].
  - apply StronglySorted_cons in Hk as [Hx Hk].
    apply StronglySorted_cons. split; [|auto].
    apply Forall_forall. intros y Hy. eapply Forall_forall in Hx; [done|].
    by eapply elem_of_sublist.
  - apply StronglySorted_cons in Hk as [_ Hk]. auto.
Qed.

(** ** Selector: what [findSnapshot] returns *)

Section SelectorFacts.
Context `{PathMatch}.

Lemma glob_filter pattern names :
  Forall (fun n => Match pattern n ≠ None) names →
  glob pattern names =
    (Go.Join snapshotsDir <$> filter (fun n => Match pattern n = Some true) names, false).
Proof.
  induction 1 as [|n names Hn _ IH]; [done|].
  simpl. destruct (Match pattern n) as [[]|] eqn:E; [| |done]; rewrite IH.
  - by rewrite filter_cons_True.
  - rewrite filter_cons_False; [done|congruence].
Qed.

Lemma matchingNames_sorted store commit :
  StronglySorted String.le (matchingNames store commit).
Proof.
  unfold matchingNames. eapply StronglySorted_sublist; [apply sublist_filter|].
  apply Sorted_StronglySorted; [apply _|]. apply Sorted_merge_sort; apply _.
Qed.

(** With a well-formed pattern, [findSnapshot] indexes the ascending
    list: an index inside the list gives the entry at that position. *)
Lemma findSnapshot_ascending store commit (index : Z) :
  Match (Go.Join snapshotsDir (snapshotPattern commit)) EmptyString ≠ None →
  Forall (fun n => Match (snapshotPattern commit) n ≠ None)
         (Go.SortStrings (elements (dom store))) →
  (0 ≤ index < Go.len (matchingNames store commit))%Z →
  ∃ n, matchingNames store commit !! Z.to_nat index = Some n ∧
       findSnapshot store commit index = Ok (Go.Join snapshotsDir n).
Proof.
  intros Hwf Hall Hi.
  destruct (lookup_lt_is_Some_2 (matchingNames store commit) (Z.to_nat index))
    as [n Hn]; [unfold Go.len in Hi; lia|].
  exists n. split; [done|]. unfold findSnapshot, Glob.
  destruct (Match (Go.Join snapshotsDir (snapshotPattern commit)) EmptyString) as [b|] eqn:E; [|done].
  rewrite (glob_filter _ _ Hall). fold (matchingNames store commit).
  unfold Go.len in *. rewrite length_fmap.
  destruct (Z.eqb_spec (Z.of_nat (length (matchingNames store commit))) 0); [lia|].
  destruct (Z.geb_spec index (Z.of_nat (length (matchingNames store commit)))); [lia|].
  unfold Go.index, Go.len. rewrite length_fmap.
  destruct (Z.ltb_spec index 0); [lia|].
  destruct (Z.leb_spec (Z.of_nat (length (matchingNames store commit))) index); [lia|].
  simpl. by rewrite list_lookup_fmap, Hn.
Qed.

(** So index 0 is the least name of the commit, the oldest snapshot. *)
Lemma findSnapshot_zero_least store commit n :
  Match (Go.Join snapshotsDir (snapshotPattern commit)) EmptyString ≠ None →
  Forall (fun n => Match (snapshotPattern commit) n ≠ None)
         (Go.SortStrings (elements (dom store))) →
  matchingNames store commit !! 0%nat = Some n →
  findSnapshot store commit 0 = Ok (Go.Join snapshotsDir n) ∧
  ∀ n', n' ∈ matchingNames store commit → String.le n n'.
Proof.
  intros Hwf Hall Hn. split.
  - destruct (findSnapshot_ascending store commit 0 Hwf Hall) as (m & Hm & ->).
    + apply lookup_lt_Some in Hn. unfold Go.len. lia.
    + change (Z.to_nat 0) with 0%nat in Hm. congruence.
  - intros n' Hn'. pose proof (matchingNames_sorted store commit) as Hs.
    destruct (matchingNames store commit) as [|x l]; [done|].
    simplify_eq/=. apply StronglySorted_cons in Hs as [Hx _].
    apply elem_of_cons in Hn' as [->|Hn']; [done|].
    by eapply Forall_forall in Hx.
Qed.

(** A negative index passes the only test ([index >= len(matches)]) and
    reaches the slice access. *)
Lemma findSnapshot_negative store commit (index : Z) matches :
  Glob store (snapshotPattern commit) = (matches, false) →
  matches ≠ [] → (index < 0)%Z →
  findSnapshot store commit index = Panic (IndexOutOfRange index (length matches)).
Proof.
  intros HG Hne Hi. unfold findSnapshot. rewrite HG.
  destruct matches as [|m ms]; [done|].
  unfold Go.len. simpl length.
  destruct (Z.eqb_spec (Z.of_nat (S (length ms))) 0); [lia|].
  destruct (Z.geb_spec index (Z.of_nat (S (length ms)))); [lia|].
  unfold Go.index. by destruct (Z.ltb_spec index 0); [|lia].
Qed.

(** From index 0 on the function returns: a path or an error. *)
Lemma findSnapshot_nonneg_returns store commit (index : Z) :
  (0 ≤ index)%Z → returns (findSnapshot store commit index).
Proof.
  intros Hi. unfold findSnapshot.
  destruct (Glob store (snapshotPattern commit)) as [matches [|]]; [done|].
  destruct (Z.eqb_spec (Go.len matches) 0); [done|].
  destruct (Z.geb_spec index (Go.len matches)); [done|].
  unfold Go.index. destruct (Z.ltb_spec index 0); [lia|].
  destruct (Z.leb_spec (Go.len matches) index); [lia|]. simpl.
  destruct (lookup_lt_is_Some_2 matches (Z.to_nat index)) as [x ->]; [|done].
  unfold Go.len in *. lia.
Qed.
End SelectorFacts.

(** C1. [findSnapshot] does not sort: with two snapshots of a
    commit, written by [CreateSnapshot] a day apart, index 0 selects the
    lexicographically least file name, the older snapshot, and it is this
    archive that [RestoreSnapshot] reads; the selections of [inspect] and
    of [status] sort descending and pick the newer one. *)
Theorem findSnapshot_index0_is_oldest :
  let store := snapshots demoWorld2 in
  let older := snapshotFileName "abc123" july26 0 in
  let newer := snapshotFileName "abc123" july27 1 in
  dom store = {[ older; newer ]} ∧
  String.ltb older newer = true ∧
  @findSnapshot simple_glob store "abc123" 0 = Ok (Go.Join snapshotsDir older) ∧
  @findSnapshot simple_glob store "abc123" 1 = Ok (Go.Join snapshotsDir newer) ∧
  Go.SortStringsReverse [older; newer] = [newer; older] ∧
  @inspectSelect simple_glob store "abc123" 0 = Ok (Go.Join snapshotsDir newer) ∧
  @latestSelect simple_glob store "abc123" = Ok (Go.Join snapshotsDir newer) ∧
  (Timestamp <$>
     (openSnapshot store (Go.Join snapshotsDir older) ≫= fun f =>
        match @readManifestFromSnapshot binary_json f with
        | Ok m => Some m
        | _ => None
        end)) = Some july26.
Proof. cbv zeta. repeat split. all: vm_compute; reflexivity. Qed.

(** C10. With snapshots on disk, index [-1] makes both
    [findSnapshot] and the selection of [inspect] index the slice of
    matches out of bounds: the program panics instead of returning. *)
Theorem findSnapshot_negative_index_panics :
  let store := snapshots demoWorld2 in
  @findSnapshot simple_glob store "abc123" (-1) = Panic (IndexOutOfRange (-1) 2) ∧
  @inspectSelect simple_glob store "abc123" (-1) = Panic (IndexOutOfRange (-1) 2) ∧
  ¬ returns (@findSnapshot simple_glob store "abc123" (-1)) ∧
  ¬ returns (@inspectSelect simple_glob store "abc123" (-1)).
Proof. repeat split; vm_compute; try reflexivity; tauto. Qed.

(** C2. The index is printed with [%d], without padding: of
    two snapshots of one commit taken in the same minute, the one with
    index 10 has the smaller file name than the one with index 2.  Both
    names are written by [CreateSnapshot] when eleven snapshots are taken
    within a minute, and the descending order then puts index 9 first. *)
Theorem snapshotFileName_index_order_broken :
  let n2 := snapshotFileName "abc123" july26 2 in
  let n10 := snapshotFileName "abc123" july26 10 in
  key_ltb (july26, 2%Z) (july26, 10%Z) = true ∧
  String.ltb n2 n10 = false ∧
  String.ltb n10 n2 = true ∧
  n2 ∈ dom (snapshots demoWorld11) ∧
  n10 ∈ dom (snapshots demoWorld11) ∧
  @inspectSelect simple_glob (snapshots demoWorld11) "abc123" 0 =
    Ok (Go.Join snapshotsDir (snapshotFileName "abc123" july26 9)).
Proof.
  repeat split; vm_compute; reflexivity.
Qed.

(** ** File filter *)

Section FilterFacts.
Context `{PathMatch}.

Lemma isExcluded_base cfg file :
  isExcluded cfg file = anyMatches (Exclude cfg) (Base file).
Proof. done. Qed.

Lemma elem_of_addNotExcluded files cfg included x :
  x ∈ addNotExcluded files cfg included ↔
  x ∈ included ∨ (x ∈ files ∧ isExcluded cfg x = false).
Proof.
  unfold addNotExcluded. revert included.
  induction files as [|f files IH]; intros included; simpl.
  - set_solver.
  - rewrite IH, elem_of_cons. destruct (isExcluded cfg f) eqn:E.
    + naive_solver congruence.
    + rewrite elem_of_union, elem_of_singleton. naive_solver.
Qed.

Lemma elem_of_include_pass pattern files (included : gset string) x :
  x ∈ foldl (fun inc file =>
               if matchesBase pattern file then {[file]} ∪ inc else inc)
            included files ↔
  x ∈ included ∨ (x ∈ files ∧ matchesBase pattern x = true).
Proof.
  revert included. induction files as [|f files IH]; intros included; simpl.
  - set_solver.
  - rewrite IH, elem_of_cons. destruct (matchesBase pattern f) eqn:E.
    + rewrite elem_of_union, elem_of_singleton. naive_solver.
    + naive_solver congruence.
Qed.

Lemma elem_of_addIncluded files cfg included x :
  x ∈ addIncluded files cfg included ↔
  x ∈ included ∨
  (x ∈ files ∧ ∃ pattern, pattern ∈ Include cfg ∧ matchesBase pattern x = true).
Proof.
  unfold addIncluded. generalize (Include cfg) as patterns. intros patterns.
  revert included. induction patterns as [|p patterns IH]; intros included; simpl.
  - split; [auto|]. intros [?|[_ (p & Hp & _)]]; [done|]. by apply elem_of_nil in Hp.
  - rewrite IH, elem_of_include_pass. split.
    + intros [[?|[? ?]]|[? (q & ? & ?)]]; [by left|right..].
      * split; [done|]. exists p. split; [left|done].
      * split; [done|]. exists q. split; [by right|done].
    + intros [?|[? (q & [->|?]%elem_of_cons & ?)]].
      * by left; left.
      * by left; right.
      * right. split; [done|]. by exists q.
Qed.

Lemma anyMatches_true patterns base :
  anyMatches patterns base = true ↔
  ∃ pattern, pattern ∈ patterns ∧ Match pattern base = Some true.
Proof.
  unfold anyMatches. rewrite existsb_exists. split.
  - intros (p & Hp%list_elem_of_In & Hm). exists p. split; [done|].
    by destruct (Match p base) as [[]|].
  - intros (p & Hp & Hm). exists p. split; [by apply list_elem_of_In|].
    by rewrite Hm.
Qed.

(** Membership in the map of [filterFiles]: the file is a candidate, and
    its base name matches an include pattern or no exclude pattern. *)
Lemma elem_of_includedMap files cfg x :
  x ∈ includedMap files cfg ↔
  x ∈ files ∧
  (anyMatches (Include cfg) (Base x) = true ∨
   anyMatches (Exclude cfg) (Base x) = false).
Proof.
  unfold includedMap. rewrite elem_of_addIncluded, elem_of_addNotExcluded.
  rewrite isExcluded_base, anyMatches_true. unfold matchesBase. split.
  - intros [[?%elem_of_empty|[? ?]]|[? (p & ? & Hm)]]; [done|by auto|].
    split; [done|]. left. exists p. split; [done|].
    by destruct (Match p (Base x)) as [[]|].
  - intros [? [(p & ? & Hm)|?]]; [right|left; right; done].
    split; [done|]. exists p. by rewrite Hm.
Qed.

Context `{MapOrder}.

Lemma elem_of_filterFiles files cfg x :
  x ∈ filterFiles files cfg ↔ x ∈ includedMap files cfg.
Proof. unfold filterFiles. by rewrite keysOf_perm, elem_of_elements. Qed.

(** C7. A candidate whose base name matches an include pattern is in the
    output of the filter whether or not its base name matches an exclude
    pattern; the output has no duplicates; and membership in the output
    is decided by the candidate's base name alone: the file is in the
    output exactly when it is a candidate whose base name matches an
    include pattern or no exclude pattern. *)
Theorem filterFiles_include_precedence (files : list string) (cfg : Config) :
  (∀ P pattern,
     P ∈ files → pattern ∈ Include cfg → Match pattern (Base P) = Some true →
     P ∈ filterFiles files cfg) ∧
  NoDup (filterFiles files cfg) ∧
  (∀ P, P ∈ filterFiles files cfg ↔
        P ∈ files ∧
        (anyMatches (Include cfg) (Base P) = true ∨
         anyMatches (Exclude cfg) (Base P) = false)) ∧
  (∀ P Q, P ∈ files → Q ∈ files → Base P = Base Q →
          (P ∈ filterFiles files cfg ↔ Q ∈ filterFiles files cfg)).
Proof.
  assert (Hchar : ∀ P, P ∈ filterFiles files cfg ↔
        P ∈ files ∧
        (anyMatches (Include cfg) (Base P) = true ∨
         anyMatches (Exclude cfg) (Base P) = false)).
  { intros P. by rewrite elem_of_filterFiles, elem_of_includedMap. }
  split; [|split; [|split; [done|]]].
  - intros P pattern HP Hpat Hm. apply Hchar. split; [done|]. left.
    apply anyMatches_true. eauto.
  - unfold filterFiles. rewrite keysOf_perm. apply NoDup_elements.
  - intros P Q HP HQ Hbase. rewrite !Hchar, Hbase. tauto.
Qed.

(** C9. The output of the filter is drawn from its input: a path in the
    output is one of the candidates, so an include pattern never brings
    in a path that was not listed. *)
Theorem filterFiles_subset (files : list string) (cfg : Config) (P : string) :
  P ∈ filterFiles files cfg → P ∈ files.
Proof. rewrite elem_of_filterFiles, elem_of_includedMap. tauto. Qed.
End FilterFacts.

Lemma filterFiles_include_precedence_witness :
  @isExcluded simple_glob testConfig "sub/.env" = true ∧
  "sub/.env" ∈ @filterFiles simple_glob elements_order testFiles testConfig.
Proof.
  split; [reflexivity|].
  apply (proj1 (@filterFiles_include_precedence simple_glob elements_order
                  testFiles testConfig) "sub/.env" ".env").
  - compute_done.
  - compute_done.
  - reflexivity.
Defined.

Lemma filterFiles_subset_witness :
  "file1.txt" ∈ testFiles ∧ "secrets.pem" ∉ @filterFiles simple_glob elements_order testFiles testConfig.
Proof.
  split.
  - apply (@filterFiles_subset simple_glob elements_order testFiles testConfig).
    compute_done.
  - intros Hin.
    apply (@filterFiles_subset simple_glob elements_order testFiles testConfig) in Hin.
    revert Hin. compute_done.
Defined.

(** ** Restore engine *)

Section TreeFacts.
Implicit Types (t : gmap string node) (p : string).

Lemma mkdirs_keeps t ds p n :
  t !! p = Some n → (mkdirs t ds).1 !! p = Some n.
Proof.
  revert t. induction ds as [|d ds IH]; intros t Hp; simpl; [done|].
  destruct (t !! d) as [[]|] eqn:Hd; simpl; auto.
  apply IH. rewrite lookup_insert_ne; [done|]. intros ->. congruence.
Qed.


Lemma MkdirAll_keeps t dir p n :
  t !! p = Some n → (MkdirAll t dir).1 !! p = Some n.
Proof.
  intros Hp. unfold MkdirAll.
  destruct (t !! dir) as [[]|]; simpl; auto using mkdirs_keeps.
Qed.


Lemma OpenFile_frame t name mode t' p :
  OpenFile t name mode = Some t' → p ≠ name → t' !! p = t !! p.
Proof.
  unfold OpenFile. intros Ho Hne.
  destruct (t !! name) as [[]|]; [| |destruct (isFolder t (Dir name))];
    simplify_eq; by rewrite lookup_insert_ne.
Qed.

Lemma OpenFile_target t name mode t' :
  OpenFile t name mode = Some t' →
  ∃ m, t' !! name = Some (File m []) ∧
       ∀ m0 d0, t !! name = Some (File m0 d0) → m = m0.
Proof.
  unfold OpenFile. intros Ho.
  destruct (t !! name) as [[m0 d0|]|] eqn:E;
    [| |destruct (isFolder t (Dir name))]; simplify_eq.
  - exists m0. rewrite lookup_insert_eq. split; [done|]. by intros ?? [= -> _].
  - exists mode. rewrite lookup_insert_eq. split; [done|]. by intros.
Qed.

Lemma Copy_frame t name data p : p ≠ name → Copy t name data !! p = t !! p.
Proof.
  intros Hne. unfold Copy.
  destruct (t !! name) as [[]|]; [|done..]. by rewrite lookup_insert_ne.
Qed.

Lemma Copy_target t name data m d :
  t !! name = Some (File m d) → Copy t name data !! name = Some (File m data).
Proof. intros Ht. unfold Copy. rewrite Ht. apply lookup_insert_eq. Qed.


Lemma Stat_false t p : Stat t p = false ↔ t !! p = None.
Proof.
  unfold Stat. rewrite bool_decide_eq_false, <- eq_None_not_Some. done.
Qed.



(** Without [force], one entry never changes a path that exists. *)
Lemma restoreFile_keeps t hdr body dryRun p n :
  t !! p = Some n →
  (restoreFile t hdr body dryRun false).1.1 !! p = Some n.
Proof.
  intros Hp. unfold restoreFile.
  destruct (String.eqb (Name hdr) manifestName); [done|].
  rewrite andb_true_r. destruct (Stat t (Name hdr)) eqn:Hs; [done|].
  destruct dryRun; [done|]. apply Stat_false in Hs.
  assert (p ≠ Name hdr) as Hne by (intros ->; congruence).
  pose proof (MkdirAll_keeps t (Dir (Name hdr)) p n Hp) as Hmk.
  destruct (MkdirAll t (Dir (Name hdr))) as [t1 [|]]; simpl in *; [|done].
  destruct (OpenFile t1 (Name hdr) (Mode hdr)) as [t2|] eqn:Ho; simpl; [|done].
  rewrite Copy_frame by done. by rewrite (OpenFile_frame _ _ _ _ _ Ho).
Qed.

Lemma restoreEntries_keeps t items dryRun p n :
  t !! p = Some n →
  (restoreEntries t items dryRun false).1.1 !! p = Some n.
Proof.
  revert t. induction items as [|[hdr body|] items IH]; intros t Hp; simpl; [done| |done].
  pose proof (restoreFile_keeps t hdr body dryRun p n Hp) as Hk.
  destruct (restoreFile t hdr body dryRun false) as [[t1 out1] [e|]]; simpl in *; [done|].
  specialize (IH t1 Hk).
  by destruct (restoreEntries t1 items dryRun false) as [[t2 out2] err].
Qed.


End TreeFacts.

Section RunFacts.
Context `{PathMatch} `{JSON}.
Implicit Types (t : gmap string node) (p : string).

Lemma RestoreSnapshot_validated w commit index force dryRun :
  RestoreSnapshot w commit index force dryRun =
    match validatedArchive w commit index with
    | Panic p => (w, [], Panic p)
    | Err e => (w, [], Err e)
    | Ok items =>
        let '(t', out, err) := restoreEntries (tree w) items dryRun force in
        ({| tree := t'; snapshots := snapshots w |}, out,
         match err with Some e => Err e | None => Ok () end)
    end.
Proof.
  unfold RestoreSnapshot, validatedArchive.
  destruct (findSnapshot (snapshots w) commit index); [|done..].
  destruct (openSnapshot (snapshots w) a) as [file|]; [|done].
  destruct (readManifestFromSnapshot file); [|done..].
  destruct (negb (String.eqb (CommitHash a0) commit)); [done|].
  by destruct file as [|[items|]].
Qed.







(** C4. When the manifest of the selected archive names another commit
    than the one requested, [RestoreSnapshot] ends with the mismatch
    error; the world is as before and nothing has been written or
    printed: the manifest is read and compared before any entry is
    restored. *)
Theorem restore_commit_binding (w : World) (commit : string) (index : Z)
    (force dryRun : bool) (snapshot : string) (file : dirent) (manifest : Manifest) :
  findSnapshot (snapshots w) commit index = Ok snapshot →
  openSnapshot (snapshots w) snapshot = Some file →
  readManifestFromSnapshot file = Ok manifest →
  CommitHash manifest ≠ commit →
  RestoreSnapshot w commit index force dryRun =
    (w, [], Err (ErrCommitMismatch commit (CommitHash manifest))).
Proof.
  intros Hf Ho Hr Hne. unfold RestoreSnapshot. rewrite Hf, Ho, Hr.
  apply String.eqb_neq in Hne. by rewrite Hne.
Qed.

End RunFacts.


Lemma restore_commit_binding_witness :
  CommitHash renamedManifest = "abc123" ∧
  @RestoreSnapshot simple_glob binary_json renamedWorld "def456" 0 true false =
    (renamedWorld, [], Err (ErrCommitMismatch "def456" (CommitHash renamedManifest))).
Proof.
  split; [vm_compute; reflexivity|].
  apply (@restore_commit_binding simple_glob binary_json renamedWorld "def456" 0
           true false (Go.Join snapshotsDir (snapshotFileName "def456" july26 0))
           renamedFile renamedManifest).
  - vm_compute. reflexivity.
  - vm_compute. reflexivity.
  - vm_compute. reflexivity.
  - vm_compute. discriminate.
Defined.



(** ** Archive codec *)

Section CodecFacts.
Context `{PathMatch} `{Digest} `{JSON} `{MapOrder}.

(** An archive in which no entry before the manifest entry bears its
    name reads back as the manifest that was marshalled. *)
Lemma scanManifest_app tw manifest :
  Forall (fun item => match item with
                      | TarEntry hdr _ => Name hdr ≠ manifestName
                      | TarCorrupt => False
                      end) tw →
  scanManifest (tw ++ [manifestEntry manifest]) = Ok manifest.
Proof.
  induction 1 as [|[hdr body|] tw Hhd _ IH]; simpl.
  - by rewrite Unmarshal_Marshal.
  - apply String.eqb_neq in Hhd. by rewrite Hhd.
  - done.
Qed.

(** The loop of [CreateSnapshot] over regular files: one entry per path,
    in order, and one checksum per path. *)
Lemma addFiles_ok t paths tw manifest :
  Forall (fun p => ∃ mode data, t !! p = Some (File mode data)) paths →
  ∃ tw' manifest',
    addFiles t tw paths manifest = (tw ++ tw', manifest', None) ∧
    Forall (fun item => match item with
                        | TarEntry hdr _ => Name hdr ∈ paths
                        | TarCorrupt => False
                        end) tw' ∧
    CommitHash manifest' = CommitHash manifest ∧
    dom (Files manifest') = list_to_set paths ∪ dom (Files manifest) ∧
    (∀ p mode data, NoDup paths → p ∈ paths → t !! p = Some (File mode data) →
       Files manifest' !! p = Some (EncodeToString (Sum256 data))) ∧
    (∀ p, p ∉ paths → Files manifest' !! p = Files manifest !! p).
Proof.
  intros Hall. revert tw manifest.
  induction Hall as [|p paths (mode & data & Hp) _ IH]; intros tw manifest.
  - exists [], manifest. simpl. rewrite app_nil_r.
    repeat split; try done; [set_solver|]. intros ???? []%elem_of_nil.
  - simpl. unfold addFileToArchive. rewrite Hp.
    edestruct IH as (tw' & m' & -> & Hnames & Hc & Hdom & Hval & Hframe).
    eexists (_ :: tw'), m'. rewrite <- app_assoc. split; [done|].
    split; [|split; [done|split; [|split]]].
    + constructor; [left|].
      eapply Forall_impl; [done|]. intros [hdr body|]; [|done]. by right.
    + rewrite Hdom. simpl. rewrite dom_insert_L. set_solver.
    + intros q mode' data' [Hq Hnd]%NoDup_cons [->|Hin]%elem_of_cons Hlook.
      * rewrite Hframe by done. simpl. rewrite lookup_insert_eq. congruence.
      * eauto.
    + intros q [Hne Hq]%not_elem_of_cons. rewrite Hframe by done. simpl.
      by rewrite lookup_insert_ne.
Qed.

(** Round trip, away from the reserved name: when the filtered files are
    regular files none of which is called [manifest.json], the snapshot is
    written and its manifest, read back, lists exactly the filtered paths,
    each with the hex digest of its content. *)
Lemma CreateSnapshot_ReadManifest commit ignored now cfg w :
  let files := filterFiles ignored cfg in
  let name := snapshotFileName commit now (getNextIndex (snapshots w) commit) in
  files ≠ [] →
  manifestName ∉ files →
  Forall (fun p => ∃ mode data, tree w !! p = Some (File mode data)) files →
  ∃ w' manifest,
    CreateSnapshot commit ignored now cfg w = (w', Ok ()) ∧
    tree w' = tree w ∧
    ReadManifest <$> (snapshots w' !! name) = Some (Ok manifest) ∧
    CommitHash manifest = commit ∧
    dom (Files manifest) = list_to_set files ∧
    ∀ p mode data, p ∈ files → tree w !! p = Some (File mode data) →
      Files manifest !! p = Some (EncodeToString (Sum256 data)).
Proof.
  intros files name Hne Hres Hall. unfold CreateSnapshot. fold files.
  destruct (Z.eqb_spec (Go.len files) 0) as [Hz|_].
  { destruct files; [done|]. unfold Go.len in Hz. simpl in Hz. lia. }
  simpl.
  edestruct (addFiles_ok (tree w) files []) as
    (tw' & m' & -> & Hnames & Hc & Hdom & Hval & _); [done|].
  simpl. eexists _, m'. split; [done|]. split; [done|]. fold name. simpl.
  rewrite lookup_insert_eq. simpl. rewrite scanManifest_app.
  - split; [done|]. split; [done|]. split.
    + rewrite Hdom. simpl. rewrite dom_empty_L. set_solver.
    + intros p mode data Hp Hl. eapply Hval; [|done..].
      unfold files, filterFiles. rewrite keysOf_perm. apply NoDup_elements.
  - eapply Forall_impl; [done|]. intros [hdr body|]; [|done].
    intros Hin Heq. by rewrite Heq in Hin.
Qed.

(** C6. A working tree whose only candidate is a file called
    [manifest.json] (here the manifest of an earlier snapshot, left by
    unpacking an archive by hand).  [CreateSnapshot] succeeds and writes
    the file as a data entry before its own manifest entry;
    [ReadManifest] stops at the first entry of that name and returns the
    file's content as the manifest.  The path keys read back are not the
    paths that were archived. *)
Theorem manifest_name_collision (commit : string) (now : GoTime) :
  let w := {| tree := {[ manifestName := File 420 (Marshal staleManifest) ]};
              snapshots := ∅ |} in
  let run := CreateSnapshot commit [manifestName] now DefaultConfig w in
  run.2 = Ok () ∧
  ReadManifest <$> (snapshots run.1 !! snapshotFileName commit now 0) =
    Some (Ok staleManifest) ∧
  dom (Files staleManifest) ≠ {[ manifestName ]} ∧
  Files staleManifest !! manifestName = None.
Proof.
  cbv zeta.
  assert (filterFiles [manifestName] DefaultConfig = [manifestName]) as Hff.
  { unfold filterFiles. apply Permutation_singleton_r.
    rewrite keysOf_perm. unfold includedMap, addIncluded, addNotExcluded. simpl.
    rewrite (right_id_L ∅ (∪)). by rewrite elements_singleton. }
  assert (getNextIndex (∅ : gmap string dirent) commit = 0%Z) as Hidx.
  { unfold getNextIndex, Glob.
    destruct (Match (Go.Join snapshotsDir (snapshotPattern commit)) EmptyString); [|done].
    rewrite dom_empty_L, elements_empty. done. }
  unfold CreateSnapshot. rewrite Hff. simpl. unfold addFileToArchive.
  rewrite lookup_singleton_eq. simpl. rewrite Hidx.
  split; [done|]. rewrite lookup_insert_eq. simpl.
  rewrite Unmarshal_Marshal. split; [done|]. split; [|done].
  compute_done.
Qed.
End CodecFacts.

(** ** Retention pruner *)

Section PruneFacts.
Context `{MapOrder} `{RemoveOracle}.
Implicit Types (store : gmap string dirent) (groups : gmap string (list string)).

Lemma groupStep_key store groups name :
  groupStep store groups name =
    match archiveKey store name with
    | Some commit => <[commit := default [] (groups !! commit) ++ [name]]> groups
    | None => groups
    end.
Proof.
  unfold groupStep, archiveKey. destruct (store !! name) as [[|gz]|]; [done| |done].
  destruct (Go.HasSuffix name ".tar.gz"); [|done].
  destruct (Go.Split name "_") as [|c [|c' parts]]; try done.
  unfold Go.len. simpl length.
  by destruct (Z.geb_spec (Z.of_nat (S (S (length parts)))) 2); [|lia].
Qed.

Lemma foldl_groupStep store names groups commit :
  default [] (foldl (groupStep store) groups names !! commit) =
    default [] (groups !! commit) ++
    filter (fun n => archiveKey store n = Some commit) names.
Proof.
  revert groups. induction names as [|n names IH]; intros groups; simpl.
  - by rewrite app_nil_r.
  - rewrite IH, groupStep_key. destruct (archiveKey store n) as [c|] eqn:Hk.
    + destruct (decide (c = commit)) as [->|Hne].
      * rewrite lookup_insert_eq, filter_cons_True by done. simpl.
        by rewrite <- app_assoc.
      * rewrite lookup_insert_ne, filter_cons_False by congruence. done.
    + by rewrite filter_cons_False by congruence.
Qed.

Lemma dom_foldl_groupStep store names groups commit :
  commit ∈ dom (foldl (groupStep store) groups names) ↔
  commit ∈ dom groups ∨ ∃ n, n ∈ names ∧ archiveKey store n = Some commit.
Proof.
  revert groups. induction names as [|n names IH]; intros groups; simpl.
  - split; [auto|]. intros [?|(n & []%elem_of_nil & _)]. done.
  - rewrite IH, groupStep_key. destruct (archiveKey store n) as [c|] eqn:Hk.
    + rewrite dom_insert, elem_of_union, elem_of_singleton. split.
      * intros [[->|?]|(m & ? & ?)]; [right|by left|right].
        -- exists n. split; [left|done].
        -- exists m. split; [by right|done].
      * intros [?|(m & [->|?]%elem_of_cons & ?)]; [by auto| |by eauto].
        left. left. congruence.
    + split.
      * intros [?|(m & ? & ?)]; [by left|right]. exists m. split; [by right|done].
      * intros [?|(m & [->|?]%elem_of_cons & ?)]; [by auto|congruence|by eauto].
Qed.

(** The groups of [pruneCmd] are the archives of each commit. *)
Lemma groupSnapshots_lookup store commit :
  default [] (groupSnapshots store !! commit) = archivesOf store commit.
Proof. unfold groupSnapshots. by rewrite foldl_groupStep, lookup_empty. Qed.

Lemma elem_of_archivesOf store commit n :
  n ∈ archivesOf store commit ↔ archiveKey store n = Some commit.
Proof.
  unfold archivesOf. rewrite list_elem_of_filter.
  unfold Go.SortStrings. rewrite merge_sort_Permutation, elem_of_elements, elem_of_dom.
  split; [tauto|]. intros Hk. split; [done|].
  unfold archiveKey in Hk. by destruct (store !! n).
Qed.

Lemma dom_groupSnapshots store commit :
  commit ∈ dom (groupSnapshots store) ↔ archivesOf store commit ≠ [].
Proof.
  unfold groupSnapshots. rewrite dom_foldl_groupStep, dom_empty. split.
  - intros [[]%elem_of_empty|(n & Hn & Hk)]. apply elem_of_archivesOf in Hk.
    intros Heq. rewrite Heq in Hk. by apply elem_of_nil in Hk.
  - intros Hne. right. destruct (archivesOf store commit) as [|n l] eqn:Heq; [done|].
    assert (n ∈ archivesOf store commit) as Hin by (rewrite Heq; left).
    exists n. split; [|by apply elem_of_archivesOf].
    unfold archivesOf in Hin. by apply list_elem_of_filter in Hin as [_ ?].
Qed.

Lemma archivesOf_NoDup store commit : NoDup (archivesOf store commit).
Proof.
  unfold archivesOf. apply NoDup_filter. unfold Go.SortStrings.
  rewrite merge_sort_Permutation. apply NoDup_elements.
Qed.


Lemma removeAll_lookup store files store' :
  removeAll store files = (store', None) →
  ∀ n, store' !! n = if decide (n ∈ files) then None else store !! n.
Proof.
  revert store. induction files as [|f files IH]; intros store Hr n; simpl in Hr.
  - injection Hr as <-. by rewrite decide_False by apply not_elem_of_nil.
  - destruct (removable f); [|done]. rewrite (IH _ Hr).
    destruct (decide (n ∈ files)) as [Hin|Hin].
    + by rewrite decide_True by (by right).
    + destruct (decide (n = f)) as [->|Hne].
      * rewrite decide_True by left. apply lookup_delete_eq.
      * rewrite decide_False by (by intros [?|?]%elem_of_cons).
        by apply lookup_delete_ne.
Qed.

Lemma pruneGroup_lookup (retention : Z) store files store' :
  (1 ≤ retention)%Z →
  pruneGroup retention store files = (store', None) →
  ∀ n, store' !! n =
       if decide (n ∈ drop (Z.to_nat retention) (Go.SortStringsReverse files))
       then None else store !! n.
Proof.
  intros Hr. unfold pruneGroup.
  destruct (Z.gtb_spec (Go.len (Go.SortStringsReverse files)) retention) as [Hgt|Hle].
  - apply removeAll_lookup.
  - intros [= <-] n. rewrite drop_ge; [|unfold Go.len in Hle; lia].
    by rewrite decide_False by apply not_elem_of_nil.
Qed.

Lemma pruneGroups_lookup (retention : Z) groups commits store store' :
  (1 ≤ retention)%Z →
  pruneGroups retention groups commits store = (store', None) →
  ∀ n, store' !! n =
       if decide (Exists (fun c => n ∈ drop (Z.to_nat retention)
                     (Go.SortStringsReverse (default [] (groups !! c)))) commits)
       then None else store !! n.
Proof.
  intros Hr. revert store.
  induction commits as [|c commits IH]; intros store Hgs n; simpl in Hgs.
  - injection Hgs as <-. rewrite decide_False; [done|]. by intros ?%Exists_nil.
  - destruct (pruneGroup retention store (default [] (groups !! c)))
      as [store1 [e|]] eqn:Hg; [done|].
    rewrite (IH _ Hgs), (pruneGroup_lookup _ _ _ _ Hr Hg).
    destruct (decide (Exists _ commits)) as [Hex|Hex].
    + by rewrite decide_True by (by right).
    + destruct (decide (n ∈ drop _ _)) as [Hin|Hin].
      * by rewrite decide_True by (by left).
      * rewrite decide_False; [done|]. by intros [?|?]%Exists_cons.
Qed.

(** When every file can be removed, the command ends without error. *)
Lemma pruneCmd_succeeds flag cfg store :
  (∀ n, removable n = true) → (1 ≤ effectiveRetention flag cfg)%Z →
  ∃ store', pruneCmd flag cfg store = (store', None).
Proof.
  intros Hrm Hr. unfold pruneCmd. fold (effectiveRetention flag cfg).
  destruct (Z.ltb_spec (effectiveRetention flag cfg) 1); [lia|].
  assert (∀ files s, ∃ s', removeAll s files = (s', None)) as Hra.
  { induction files as [|f files IH]; intros s; simpl; [by eauto|].
    by rewrite Hrm. }
  generalize (keysOf (dom (groupSnapshots store))). intros commits.
  generalize store at 2. induction commits as [|c commits IH]; intros s; simpl.
  - by eauto.
  - unfold pruneGroup. destruct (_ >? _)%Z.
    + destruct (Hra (Go.slice_from (Go.SortStringsReverse
                      (default [] (groupSnapshots store !! c)))
                      (effectiveRetention flag cfg)) s) as [s' ->]. apply IH.
    + apply IH.
Qed.

End PruneFacts.


(** * Further properties *)

(** ** Configuration *)

Lemma validEvents_true (event : string) :
  default false (validEvents !! event) = true ↔ event = "commit" ∨ event = "checkout".
Proof.
  unfold validEvents.
  destruct (decide (event = "commit")) as [->|Hc]; [by split; auto|].
  destruct (decide (event = "checkout")) as [->|Hk]; [by split; auto|].
  rewrite lookup_insert_ne, lookup_singleton_ne by done. simpl. split; [done|tauto].
Qed.

Lemma firstInvalid_None (events : list string) :
  firstInvalid events = None ↔
  Forall (fun event => event = "commit" ∨ event = "checkout") events.
Proof.
  induction events as [|e events IH]; simpl; [by split; auto|].
  rewrite Forall_cons, <- IH, <- validEvents_true.
  destruct (default false (validEvents !! e)); simpl.
  - split; [by split|by intros [_ ?]].
  - split; [done|by intros [? _]].
Qed.

Lemma firstInvalid_Some (events : list string) (event : string) :
  firstInvalid events = Some event →
  event ∈ events ∧ event ≠ "commit" ∧ event ≠ "checkout".
Proof.
  induction events as [|e events IH]; simpl; [done|].
  destruct (default false (validEvents !! e)) eqn:Hv; simpl.
  - intros [? ?]%IH. split; [by right|done].
  - intros [= <-]. split; [left|].
    split; intros ->; by vm_compute in Hv.
Qed.

(** X1. [ValidateConfig] accepts a configuration exactly when its
    retention is at least 1 and every event of [snapshot_on] and of
    [restore_on] is [commit] or [checkout]; a rejected retention is
    reported before any event, and an event reported as invalid is one of
    the list that is neither [commit] nor [checkout]. *)
Theorem ValidateConfig_accepts_iff (cfg : Config) :
  (ValidateConfig cfg = None ↔
     (1 ≤ Retention cfg)%Z ∧
     Forall (fun event => event = "commit" ∨ event = "checkout") (SnapshotOn cfg) ∧
     Forall (fun event => event = "commit" ∨ event = "checkout") (RestoreOn cfg)) ∧
  (ValidateConfig cfg = Some ErrRetentionConfig ↔ (Retention cfg < 1)%Z) ∧
  (∀ event, ValidateConfig cfg = Some (ErrInvalidSnapshotOn event) →
     event ∈ SnapshotOn cfg ∧ event ≠ "commit" ∧ event ≠ "checkout") ∧
  (∀ event, ValidateConfig cfg = Some (ErrInvalidRestoreOn event) →
     event ∈ RestoreOn cfg ∧ event ≠ "commit" ∧ event ≠ "checkout").
Proof.
  unfold ValidateConfig. rewrite <- !firstInvalid_None.
  destruct (Z.ltb_spec (Retention cfg) 1) as [Hr|Hr].
  { split; [split; [done|intros (? & _); lia]|].
    split; [done|]. split; intros event; done. }
  destruct (firstInvalid (SnapshotOn cfg)) as [e|] eqn:Hs.
  { split; [split; [done|by intros (_ & ? & _)]|].
    split; [split; [done|lia]|].
    split; intros event; [|done].
    intros [= <-]. by apply firstInvalid_Some. }
  destruct (firstInvalid (RestoreOn cfg)) as [e|] eqn:Ho.
  { split; [split; [done|by intros (_ & _ & ?)]|].
    split; [split; [done|lia]|].
    split; intros event; [done|].
    intros [= <-]. by apply firstInvalid_Some. }
  split; [by split|]. split; [split; [done|lia]|]. split; intros event; done.
Qed.

Section ConfigFacts.
Context `{YAML}.

(** What [LoadConfig] makes of a parsed configuration. *)
Lemma LoadConfig_data (s : ConfigStore) (data : list byte) (cfg : Config) :
  cfgFile s = ConfigData data → yamlUnmarshal data = Some cfg →
  ∃ cfg', LoadConfig s = (s, inr cfg') ∧
    Retention cfg' = (if (Retention cfg <=? 0)%Z then 10%Z else Retention cfg) ∧
    SnapshotOn cfg' = (if decide (SnapshotOn cfg = []) then ["commit"] else SnapshotOn cfg) ∧
    RestoreOn cfg' = (if decide (RestoreOn cfg = []) then ["checkout"] else RestoreOn cfg) ∧
    HooksEnabled cfg' = HooksEnabled cfg ∧
    Exclude cfg' = Exclude cfg ∧ Include cfg' = Include cfg.
Proof.
  intros Hf Hu. unfold LoadConfig. rewrite Hf, Hu. eexists. split; [done|].
  destruct cfg as [r so ro h e i]. simpl.
  destruct (r <=? 0)%Z; simpl; destruct so, ro; simpl; done.
Qed.

Lemma LoadConfig_ok (s s' : ConfigStore) (cfg : Config) :
  LoadConfig s = (s', inr cfg) →
  (1 ≤ Retention cfg)%Z ∧ SnapshotOn cfg ≠ [] ∧ RestoreOn cfg ≠ [].
Proof.
  unfold LoadConfig. destruct (cfgFile s) as [| |data] eqn:Hf.
  - destruct (SaveConfig DefaultConfig s) as [s1 [e|]]; [done|].
    intros [= _ <-]. by repeat split.
  - done.
  - destruct (yamlUnmarshal data) as [cfg0|] eqn:Hu; [|done].
    destruct (LoadConfig_data s data cfg0 Hf Hu) as (cfg' & Hl & Hr & Hso & Hro & _).
    unfold LoadConfig in Hl. rewrite Hf, Hu in Hl. rewrite Hl.
    intros [= _ <-]. rewrite Hr, Hso, Hro.
    destruct (Z.leb_spec (Retention cfg0) 0); repeat case_decide; repeat split;
      try done; lia.
Qed.

(** X2. A configuration that [LoadConfig] returns has a retention of at
    least 1 and non-empty [snapshot_on] and [restore_on] lists: what the
    file leaves unset (or sets to nothing) is filled from the defaults;
    the patterns and the hook switch are those of the file. *)
Theorem LoadConfig_fills_defaults (s s' : ConfigStore) (cfg : Config) :
  LoadConfig s = (s', inr cfg) →
  (1 ≤ Retention cfg)%Z ∧ SnapshotOn cfg ≠ [] ∧ RestoreOn cfg ≠ [] ∧
  (∀ data parsed, cfgFile s = ConfigData data → yamlUnmarshal data = Some parsed →
     s' = s ∧
     Exclude cfg = Exclude parsed ∧ Include cfg = Include parsed ∧
     HooksEnabled cfg = HooksEnabled parsed ∧
     ((1 ≤ Retention parsed)%Z → Retention cfg = Retention parsed) ∧
     (SnapshotOn parsed ≠ [] → SnapshotOn cfg = SnapshotOn parsed) ∧
     (RestoreOn parsed ≠ [] → RestoreOn cfg = RestoreOn parsed)).
Proof.
  intros Hl. destruct (LoadConfig_ok _ _ _ Hl) as (Hr & Hso & Hro).
  do 3 (split; [done|]). intros data parsed Hf Hu.
  destruct (LoadConfig_data s data parsed Hf Hu)
    as (cfg' & Hl' & Hr' & Hso' & Hro' & Hh & He & Hi).
  assert (s' = s ∧ cfg = cfg') as [-> ->] by (split; congruence).
  do 4 (split; [done|]). split; [|split].
  - intros ?. rewrite Hr'. destruct (Z.leb_spec (Retention parsed) 0); [lia|done].
  - intros ?. rewrite Hso'. by rewrite decide_False.
  - intros ?. rewrite Hro'. by rewrite decide_False.
Qed.

Lemma SaveConfig_then_LoadConfig (cfg : Config) (s s' : ConfigStore) :
  SaveConfig cfg s = (s', None) →
  (1 ≤ Retention cfg)%Z → SnapshotOn cfg ≠ [] → RestoreOn cfg ≠ [] →
  LoadConfig s' = (s', inr cfg).
Proof.
  unfold SaveConfig. destruct (cfgWritable s); [|done]. intros [= <-] Hr Hso Hro.
  destruct (LoadConfig_data {| cfgFile := ConfigData (yamlMarshal cfg); cfgWritable := true |}
              (yamlMarshal cfg) cfg eq_refl (yamlUnmarshal_Marshal cfg))
    as (cfg' & -> & Hr' & Hso' & Hro' & Hh & He & Hi).
  f_equal. f_equal.
  destruct (Z.leb_spec (Retention cfg) 0); [lia|].
  rewrite decide_False in Hso' by done. rewrite decide_False in Hro' by done.
  destruct cfg, cfg'; simpl in *; congruence.
Qed.

(** X3. What [SaveConfig] writes, [LoadConfig] reads back: after a save
    that succeeds, loading leaves the file as it is and returns the saved
    configuration, provided its retention is at least 1 and its event
    lists are not empty. *)
Theorem SaveConfig_LoadConfig (cfg : Config) (s s' : ConfigStore) :
  SaveConfig cfg s = (s', None) →
  (1 ≤ Retention cfg)%Z → SnapshotOn cfg ≠ [] → RestoreOn cfg ≠ [] →
  LoadConfig s' = (s', inr cfg).
Proof. apply SaveConfig_then_LoadConfig. Qed.

(** X4. Where there is no configuration file, [LoadConfig] returns the
    default configuration and writes it; loading again returns the default
    configuration from the file and writes nothing.  If the file cannot be
    written, the first load fails and nothing is changed. *)
Theorem LoadConfig_creates_default (s : ConfigStore) :
  cfgFile s = NoConfig →
  (cfgWritable s = true →
     let s' := {| cfgFile := ConfigData (yamlMarshal DefaultConfig); cfgWritable := true |} in
     LoadConfig s = (s', inr DefaultConfig) ∧
     LoadConfig s' = (s', inr DefaultConfig)) ∧
  (cfgWritable s = false → LoadConfig s = (s, inl ErrCreateDefaultConfig)).
Proof.
  intros Hf. split; intros Hw.
  - cbv zeta.
    assert (SaveConfig DefaultConfig s =
              ({| cfgFile := ConfigData (yamlMarshal DefaultConfig);
                  cfgWritable := true |}, None)) as Hsave
      by (unfold SaveConfig; by rewrite Hw).
    split.
    + unfold LoadConfig. by rewrite Hf, Hsave.
    + by apply (SaveConfig_then_LoadConfig DefaultConfig s).
  - unfold LoadConfig, SaveConfig. by rewrite Hf, Hw.
Qed.
End ConfigFacts.

(** ** Numbering of the snapshots *)

Lemma leb_app_same (a s t : string) :
  String.leb (a +:+ s) (a +:+ t) = String.leb s t.
Proof. unfold String.leb. by rewrite compare_app_same. Qed.

Lemma Join_le (dir a b : string) :
  String.le a b → String.le (Go.Join dir a) (Go.Join dir b).
Proof.
  unfold String.le, Go.Join. rewrite <- !string_app_assoc.
  by rewrite leb_app_same.
Qed.

Lemma Join_inj (dir a b : string) : Go.Join dir a = Go.Join dir b → a = b.
Proof.
  unfold Go.Join. rewrite <- !string_app_assoc.
  generalize (dir +:+ "/"). intros p. induction p as [|c p IH]; [done|].
  change (String c (p +:+ a) = String c (p +:+ b) → a = b). intros [= ?]. auto.
Qed.

Section NumberingFacts.
Context `{PathMatch}.

(** The matches of [glob] are names of the listing, in its order. *)
Lemma glob_sublist pattern names :
  ∃ l, l `sublist_of` names ∧ (glob pattern names).1 = Go.Join snapshotsDir <$> l.
Proof.
  induction names as [|n names (l & Hl & IH)]; simpl; [by exists []|].
  destruct (Match pattern n) as [[]|].
  - exists (n :: l). destruct (glob pattern names) as [m bad]. simpl in *.
    split; [by constructor|]. by rewrite IH.
  - exists l. destruct (glob pattern names) as [m bad]. simpl in *.
    split; [by constructor|done].
  - exists []. split; [apply sublist_nil_l|done].
Qed.

Lemma Glob_sorted store pattern :
  StronglySorted String.le (Glob store pattern).1.
Proof.
  unfold Glob. destruct (Match _ _); [|constructor].
  destruct (glob_sublist pattern (Go.SortStrings (elements (dom store))))
    as (l & Hl & ->).
  apply (StronglySorted_fmap _ String.le); [apply Join_le|].
  eapply StronglySorted_sublist; [done|].
  apply StronglySorted_merge_sort; apply _.
Qed.

Lemma SortStringsReverse_sorted (l : list string) :
  StronglySorted String.le l → Go.SortStringsReverse l = reverse l.
Proof.
  intros Hs. apply (Sorted_unique Go.string_ge).
  - apply Sorted_merge_sort; apply _.
  - apply (Sorted_reverse String.le). by apply StronglySorted_Sorted.
  - unfold Go.SortStringsReverse. by rewrite merge_sort_Permutation, reverse_Permutation.
Qed.

Lemma index_reverse {A} (l : list A) (i : Z) :
  (0 ≤ i < Go.len l)%Z →
  Go.index (reverse l) i = Go.index l (Go.len l - 1 - i).
Proof.
  intros Hi. unfold Go.index, Go.len in *. rewrite length_reverse.
  destruct (Z.ltb_spec i 0); [lia|].
  destruct (Z.ltb_spec (Z.of_nat (length l) - 1 - i) 0); [lia|].
  destruct (Z.leb_spec (Z.of_nat (length l)) i); [lia|].
  destruct (Z.leb_spec (Z.of_nat (length l)) (Z.of_nat (length l) - 1 - i)); [lia|].
  simpl. rewrite reverse_lookup by lia.
  replace (length l - S (Z.to_nat i))%nat
    with (Z.to_nat (Z.of_nat (length l) - 1 - i)) by lia.
  destruct (lookup_lt_is_Some_2 l (Z.to_nat (Z.of_nat (length l) - 1 - i)))
    as [x ->]; [lia|done].
Qed.

(** X5. [inspect] numbers the snapshots of a commit from the newest name
    down, [restore] from the oldest name up: with [n] snapshots of the
    commit, index [i] of [inspect] selects the file that index
    [n - 1 - i] of [findSnapshot] selects, and the snapshot [status]
    compares with is the one of index [n - 1]. *)
Theorem inspect_numbering_mirrors_restore (store : gmap string dirent)
    (commit : string) (i : Z) :
  let n := getNextIndex store commit in
  (0 ≤ i < n)%Z →
  inspectSelect store commit i = findSnapshot store commit (n - 1 - i) ∧
  latestSelect store commit = findSnapshot store commit (n - 1).
Proof.
  unfold getNextIndex, inspectSelect, latestSelect, findSnapshot. cbv zeta.
  pose proof (Glob_sorted store (snapshotPattern commit)) as Hs.
  destruct (Glob store (snapshotPattern commit)) as [matches bad]. simpl in *.
  intros Hi. destruct bad; [done|].
  destruct (Z.eqb_spec (Go.len matches) 0); [lia|].
  rewrite (SortStringsReverse_sorted _ Hs).
  assert (Go.len (reverse matches) = Go.len matches) as Hlen
    by (unfold Go.len; by rewrite length_reverse).
  rewrite Hlen.
  destruct (Z.geb_spec i (Go.len matches)); [lia|].
  destruct (Z.geb_spec (Go.len matches - 1 - i) (Go.len matches)); [lia|].
  destruct (Z.geb_spec (Go.len matches - 1) (Go.len matches)); [lia|].
  split; [by apply index_reverse|].
  rewrite index_reverse by lia. f_equal. lia.
Qed.
End NumberingFacts.

Lemma inspect_numbering_mirrors_restore_witness :
  @inspectSelect simple_glob (snapshots demoWorld2) "abc123" 0 =
    Ok (Go.Join snapshotsDir (snapshotFileName "abc123" july27 1)) ∧
  @findSnapshot simple_glob (snapshots demoWorld2) "abc123" 1 =
    Ok (Go.Join snapshotsDir (snapshotFileName "abc123" july27 1)).
Proof.
  assert (@findSnapshot simple_glob (snapshots demoWorld2) "abc123" 1 =
    Ok (Go.Join snapshotsDir (snapshotFileName "abc123" july27 1))) as Hf
    by (vm_compute; reflexivity).
  split; [|exact Hf].
  rewrite <- Hf.
  refine (proj1 (@inspect_numbering_mirrors_restore simple_glob
                   (snapshots demoWorld2) "abc123" 0 _)).
  vm_compute. split; [discriminate|reflexivity].
Defined.

(** ** Taking a snapshot *)

Lemma substring_app_r (pre s : string) :
  String.substring (String.length pre)
    (String.length (pre +:+ s) - String.length pre) (pre +:+ s) = s.
Proof.
  rewrite string_length_app.
  replace (String.length pre + String.length s - String.length pre)%nat
    with (String.length s) by lia.
  induction pre as [|c pre IH]; [|exact IH].
  change (String.substring 0 (String.length s) s = s).
  induction s as [|c s IH]; [done|]. simpl. by rewrite IH.
Qed.

Section SnapshotFacts.
Context `{PathMatch} `{Digest} `{JSON} `{MapOrder}.

(** A path that [Glob] returned opens the file of that name. *)
Lemma openSnapshot_Join (store : gmap string dirent) (name : string) :
  openSnapshot store (Go.Join snapshotsDir name) = store !! name.
Proof.
  unfold openSnapshot, Go.Join. rewrite <- string_app_assoc.
  by rewrite prefix_app, substring_app_r.
Qed.



(** The metadata of the manifest is not touched by the loop over the
    files. *)
Lemma addFiles_meta t tw paths manifest :
  let m' := (addFiles t tw paths manifest).1.2 in
  CommitHash m' = CommitHash manifest ∧ Timestamp m' = Timestamp manifest ∧
  Index m' = Index manifest ∧ Cfg m' = Cfg manifest.
Proof.
  revert tw manifest. induction paths as [|p paths IH]; intros tw manifest; simpl; [done|].
  unfold addFileToArchive. destruct (t !! p) as [[mode data|]|]; [|done..].
  cbv zeta in IH.
  set (tw1 := tw ++ _). set (m1 := mkManifest _ _ _ _ _).
  destruct (IH tw1 m1) as (-> & -> & -> & ->). done.
Qed.

(** The entry the loop writes for a regular file. *)
Lemma addFiles_items t paths tw manifest :
  Forall (fun p => ∃ mode data, t !! p = Some (File mode data)) paths →
  (addFiles t tw paths manifest).1.1 = tw ++ omap (fileEntry t) paths ∧
  (addFiles t tw paths manifest).2 = None.
Proof.
  intros Hall. revert tw manifest.
  induction Hall as [|p paths (mode & data & Hp) _ IH]; intros tw manifest; simpl.
  - by rewrite app_nil_r.
  - unfold addFileToArchive, fileEntry at 1. rewrite Hp. simpl.
    destruct (IH (tw ++ [TarEntry {| Name := p; Mode := mode; Size := Go.len data |} data])
               {| CommitHash := CommitHash manifest; Timestamp := Timestamp manifest;
                  Index := Index manifest;
                  Files := <[p := EncodeToString (Sum256 data)]> (Files manifest);
                  Cfg := Cfg manifest |}) as [-> ->].
    by rewrite <- app_assoc.
Qed.





(** X7. The manifest of a snapshot of regular files, none of them called
    [manifest.json]: read back from the archive it carries the commit,
    the time, the index and the configuration of the run, and its file
    table lists exactly the filtered paths, each with the checksum that
    [calculateChecksum] computes for the file in the working tree; the
    archive stores the bytes of each file under its path. *)
Theorem snapshot_records_files (commit : string) (ignored : list string)
    (now : GoTime) (cfg : Config) (w : World) :
  let files := filterFiles ignored cfg in
  let index := getNextIndex (snapshots w) commit in
  let name := snapshotFileName commit now index in
  files ≠ [] →
  manifestName ∉ files →
  Forall (fun p => ∃ mode data, tree w !! p = Some (File mode data)) files →
  ∃ w' items manifest,
    CreateSnapshot commit ignored now cfg w = (w', Ok ()) ∧
    snapshots w' !! name = Some (EntFile (Some items)) ∧
    ReadManifest (EntFile (Some items)) = Ok manifest ∧
    CommitHash manifest = commit ∧ Timestamp manifest = now ∧
    Index manifest = index ∧ Cfg manifest = cfg ∧
    dom (Files manifest) = list_to_set files ∧
    (∀ p, p ∈ files →
       Files manifest !! p = calculateChecksum (tree w) p ∧
       ∃ mode data, tree w !! p = Some (File mode data) ∧
                    lastBody items p = Some data).
Proof.
  intros files index name Hne Hres Hall. unfold CreateSnapshot.
  fold files. fold index. fold name.
  destruct (Z.eqb_spec (Go.len files) 0) as [Hz|_].
  { destruct files; [done|]. unfold Go.len in Hz. simpl in Hz. lia. }
  simpl.
  set (m0 := {| CommitHash := commit; Timestamp := now; Index := index;
                Files := ∅; Cfg := cfg |}).
  destruct (addFiles_ok (tree w) files [] m0 Hall)
    as (tw' & m' & Hadd & Hnames & _ & Hdom & Hval & _).
  pose proof (addFiles_meta (tree w) [] files m0) as Hmeta.
  pose proof (addFiles_items (tree w) files [] m0 Hall) as [Hitems _].
  rewrite Hadd in Hmeta, Hitems. simpl in Hmeta, Hitems. rewrite Hadd.
  destruct Hmeta as (Hc & Ht & Hi & Hcfg).
  eexists _, _, m'. split; [done|]. simpl. rewrite lookup_insert_eq.
  split; [done|]. split.
  { apply scanManifest_app. eapply Forall_impl; [done|].
    intros [hdr body|]; [|done]. intros Hin Heq. by rewrite Heq in Hin. }
  do 4 (split; [done|]). split.
  { rewrite Hdom. simpl. rewrite dom_empty_L. set_solver. }
  intros p Hp.
  assert (NoDup files) as Hnd
    by (unfold files, filterFiles; rewrite keysOf_perm; apply NoDup_elements).
  pose proof Hall as Hall'. rewrite Forall_forall in Hall'.
  destruct (Hall' p Hp) as (mode & data & Hlook). split.
  - unfold calculateChecksum. rewrite Hlook. eauto.
  - exists mode, data. split; [done|]. rewrite Hitems.
    assert (p ≠ manifestName) as Hpm by (intros ->; done).
    clear -Hp Hnd Hlook Hpm. revert Hp Hnd.
    generalize files. intros l Hp Hnd.
    induction l as [|q l IH]; [by apply elem_of_nil in Hp|].
    apply NoDup_cons in Hnd as [Hq Hnd]. csimpl.
    unfold fileEntry at 1. destruct (tree w !! q) as [[mq dq|]|] eqn:Hlq; csimpl.
    + apply elem_of_cons in Hp as [Heq|Hp].
      * subst q.
        assert (lastBody (omap (fileEntry (tree w)) l ++ [manifestEntry m']) p = None)
          as ->.
        { clear -Hq Hpm. induction l as [|x l IH]; [|csimpl].
          - change (lastBody [manifestEntry m'] p = None).
            unfold manifestEntry, lastBody. cbn [Name].
            by destruct (String.eqb_spec manifestName p).
          - apply not_elem_of_cons in Hq as [Hne Hq].
            unfold fileEntry at 1. destruct (tree w !! x) as [[mx dx|]|]; csimpl; auto.
            rewrite IH by done. apply String.eqb_neq in Hne.
            by rewrite String.eqb_sym, Hne. }
        rewrite String.eqb_refl. congruence.
      * by rewrite IH.
    + apply elem_of_cons in Hp as [Heq|Hp]; [congruence|auto].
    + apply elem_of_cons in Hp as [Heq|Hp]; [congruence|auto].
Qed.

End SnapshotFacts.


Lemma snapshot_records_files_witness :
  (@CreateSnapshot simple_glob xor_digest binary_json elements_order
     "abc123" demoIgnored july26 demoConfig demoWorld0).2 = Ok ().
Proof.
  destruct (@snapshot_records_files simple_glob xor_digest binary_json elements_order
              "abc123" demoIgnored july26 demoConfig demoWorld0)
    as (w' & items & manifest & -> & _).
  - vm_compute. discriminate.
  - compute_done.
  - vm_compute. repeat constructor; eexists _, _; reflexivity.
  - reflexivity.
Defined.


(** ** Restoring what was snapshotted *)

Section RoundTripFacts.
Context `{PathMatch} `{Digest} `{JSON} `{MapOrder}.
Implicit Types (t : gmap string node) (p : string).

(** [mkdirs] leaves a path as it is or, where there was nothing, makes
    it a directory. *)
Lemma mkdirs_other t ds p :
  (mkdirs t ds).1 !! p = t !! p ∨
  (t !! p = None ∧ (mkdirs t ds).1 !! p = Some Folder).
Proof.
  revert t. induction ds as [|d ds IH]; intros t; simpl; [by left|].
  destruct (t !! d) as [[]|] eqn:Hd; simpl; [by left|apply IH|].
  destruct (IH (<[d := Folder]> t)) as [Heq|[Hn Hf]].
  - rewrite Heq. destruct (decide (p = d)) as [->|Hne].
    + rewrite lookup_insert_eq. by right.
    + rewrite lookup_insert_ne by done. by left.
  - destruct (decide (p = d)) as [->|Hne].
    + by rewrite lookup_insert_eq in Hn.
    + rewrite lookup_insert_ne in Hn by done. by right.
Qed.

Lemma MkdirAll_other t dir p :
  (MkdirAll t dir).1 !! p = t !! p ∨
  (t !! p = None ∧ (MkdirAll t dir).1 !! p = Some Folder).
Proof.
  unfold MkdirAll. destruct (t !! dir) as [[]|]; simpl; [by left..|apply mkdirs_other].
Qed.





(** What a successful [CreateSnapshot] has written. *)
Lemma addFiles_None t paths tw manifest tw' manifest' :
  addFiles t tw paths manifest = (tw', manifest', None) →
  tw' = tw ++ omap (fileEntry t) paths ∧
  Forall (fun p => ∃ mode data, t !! p = Some (File mode data)) paths.
Proof.
  revert tw manifest. induction paths as [|q paths IH]; intros tw manifest; csimpl.
  - intros [= <- _]. by rewrite app_nil_r.
  - unfold addFileToArchive, fileEntry at 1.
    destruct (t !! q) as [[mode data|]|] eqn:Hq; [|done..].
    intros [-> Hall]%IH. csimpl. rewrite <- app_assoc. split; [done|].
    constructor; eauto.
Qed.

Lemma CreateSnapshot_Ok commit ignored now cfg w w1 :
  let files := filterFiles ignored cfg in
  let name := snapshotFileName commit now (getNextIndex (snapshots w) commit) in
  CreateSnapshot commit ignored now cfg w = (w1, Ok ()) →
  Forall (fun p => ∃ mode data, tree w !! p = Some (File mode data)) files ∧
  tree w1 = tree w ∧
  ∃ manifest,
    snapshots w1 !! name =
      Some (EntFile (Some (omap (fileEntry (tree w)) files ++ [manifestEntry manifest]))).
Proof.
  intros files name. unfold CreateSnapshot. fold files. fold name.
  destruct (_ =? _)%Z; [done|]. simpl.
  destruct (addFiles _ _ _ _) as [[tw m'] [e|]] eqn:Hadd; [done|].
  intros [= <-]. apply addFiles_None in Hadd as [-> Hall]. simpl.
  split; [done|]. split; [done|]. exists m'. by rewrite lookup_insert_eq.
Qed.

End RoundTripFacts.

Section RepeatFacts.
Context `{PathMatch} `{JSON}.
Implicit Types (t : gmap string node) (p : string).






(** X11. No rollback.  Without [force], whatever a restore has written
    stays: for every file the run wrote, the working tree holds the
    written bytes when the run ends, also when it ends with an error at a
    later entry. *)
Theorem restore_keeps_what_it_wrote (w : World) (commit : string) (index : Z)
    (p : string) (body : list byte) :
  let run := RestoreSnapshot w commit index false false in
  SysCopy p body ∈ run.1.2 →
  ∃ m, tree run.1.1 !! p = Some (File m body).
Proof.
  cbv zeta. rewrite RestoreSnapshot_validated.
  destruct (validatedArchive w commit index) as [items| |];
    [|by intros ?%elem_of_nil..].
  generalize (tree w). intros t.
  assert (∀ t, SysCopy p body ∈ (restoreEntries t items false false).1.2 →
               ∃ m, (restoreEntries t items false false).1.1 !! p = Some (File m body))
    as Hgen.
  { clear t. induction items as [|[hdr b|] items IH]; intros t; simpl;
      [by intros ?%elem_of_nil| |by intros ?%elem_of_nil].
    destruct (restoreFile t hdr b false false) as [[t1 out1] oe] eqn:Hrf.
    assert (SysCopy p body ∈ out1 → ∃ m, t1 !! p = Some (File m body)) as Hone.
    { revert Hrf. unfold restoreFile.
      destruct (String.eqb_spec (Name hdr) manifestName) as [Hm|Hm].
      { intros [= _ <- _]. by intros ?%elem_of_nil. }
      destruct (Stat t (Name hdr) && negb false) eqn:Hst.
      { intros [= _ <- _]. intros [=]%list_elem_of_singleton. }
      intros Hrf' Hin.
      destruct (MkdirAll t (Dir (Name hdr))) as [t1' [|]].
      2:{ injection Hrf' as _ <- _. by apply list_elem_of_singleton in Hin. }
      destruct (OpenFile t1' (Name hdr) (Mode hdr)) as [t2|] eqn:Ho.
      2:{ injection Hrf' as _ <- _.
          apply elem_of_cons in Hin as [?|Hin]; [done|].
          by apply list_elem_of_singleton in Hin. }
      injection Hrf' as <- <- _.
      apply elem_of_cons in Hin as [?|Hin]; [done|].
      apply elem_of_cons in Hin as [?|Hin]; [done|].
      apply list_elem_of_singleton in Hin. injection Hin as Hp Hb. subst p body.
      destruct (OpenFile_target _ _ _ _ Ho) as (m & Ht2 & _).
      exists m. by apply (Copy_target _ _ _ _ _ Ht2). }
    destruct oe as [e|]; simpl; [done|].
    pose proof (restoreEntries_keeps t1 items false p) as Hk.
    specialize (IH t1).
    destruct (restoreEntries t1 items false false) as [[t2 out2] err]. simpl in *.
    intros [Hin|Hin]%elem_of_app; [|by auto].
    destruct (Hone Hin) as (m & Hm). exists m. by apply Hk. }
  specialize (Hgen t).
  destruct (restoreEntries t items false false) as [[t' out] err]. simpl in *.
  done.
Qed.
End RepeatFacts.



Lemma restore_keeps_what_it_wrote_witness :
  (@RestoreSnapshot simple_glob binary_json blockedWorld "abc123" 0 false false).2
    = Err (ErrCreateDir "build") ∧
  ∃ m, tree (@RestoreSnapshot simple_glob binary_json blockedWorld "abc123" 0 false false).1.1
         !! ".env" = Some (File m [x79]).
Proof.
  split; [vm_compute; reflexivity|].
  apply (@restore_keeps_what_it_wrote simple_glob binary_json blockedWorld "abc123" 0
           ".env" [x79]).
  vm_compute. repeat constructor.
Defined.

(** ** Pruning, whatever its outcome *)

Section PruneSafety.
Context `{MapOrder} `{RemoveOracle}.
Implicit Types (store : gmap string dirent) (groups : gmap string (list string)).

(** The deletion loop, however it ends: a name is untouched, or it is one
    of the listed files and is gone; the only error is that of a file
    that cannot be removed. *)
Lemma removeAll_any store files n :
  (removeAll store files).1 !! n = store !! n ∨
  (n ∈ files ∧ (removeAll store files).1 !! n = None).
Proof.
  revert store. induction files as [|f files IH]; intros store; simpl; [by left|].
  destruct (removable f); [|by left].
  destruct (IH (delete f store)) as [Heq|[Hin Hn]].
  - rewrite Heq. destruct (decide (n = f)) as [->|Hne].
    + right. split; [left|]. apply lookup_delete_eq.
    + left. by rewrite lookup_delete_ne.
  - right. split; [by right|done].
Qed.

Lemma removeAll_error store files e :
  (removeAll store files).2 = Some e → ∃ f, f ∈ files ∧ e = ErrDeleteSnapshot f.
Proof.
  revert store. induction files as [|f files IH]; intros store; simpl; [done|].
  destruct (removable f).
  - intros (g & ? & ?)%IH. exists g. split; [by right|done].
  - intros [= <-]. exists f. split; [left|done].
Qed.

Lemma pruneGroup_any (retention : Z) store files n :
  (pruneGroup retention store files).1 !! n = store !! n ∨
  (n ∈ drop (Z.to_nat retention) (Go.SortStringsReverse files) ∧
   (pruneGroup retention store files).1 !! n = None).
Proof.
  unfold pruneGroup. destruct (_ >? _)%Z; [|by left]. apply removeAll_any.
Qed.

Lemma pruneGroups_any (retention : Z) groups commits store n :
  (pruneGroups retention groups commits store).1 !! n = store !! n ∨
  ((pruneGroups retention groups commits store).1 !! n = None ∧
   ∃ c, c ∈ commits ∧
        n ∈ drop (Z.to_nat retention)
                 (Go.SortStringsReverse (default [] (groups !! c)))).
Proof.
  revert store. induction commits as [|c commits IH]; intros store; simpl; [by left|].
  pose proof (pruneGroup_any retention store (default [] (groups !! c)) n) as Hg.
  destruct (pruneGroup retention store (default [] (groups !! c))) as [store1 [e|]];
    simpl in *.
  - destruct Hg as [?|[Hin Hn]]; [by left|right].
    split; [done|]. exists c. split; [left|done].
  - destruct (IH store1) as [Heq|[Hn (c' & Hc' & Hin)]].
    + rewrite Heq. destruct Hg as [?|[Hin Hn]]; [by left|right].
      split; [done|]. exists c. split; [left|done].
    + right. split; [done|]. exists c'. split; [by right|done].
Qed.

Lemma pruneGroups_error (retention : Z) groups commits store e :
  (pruneGroups retention groups commits store).2 = Some e →
  ∃ f, e = ErrDeleteSnapshot f.
Proof.
  revert store. induction commits as [|c commits IH]; intros store; simpl; [done|].
  destruct (pruneGroup retention store (default [] (groups !! c)))
    as [store1 [e1|]] eqn:Hg; simpl; [|apply IH].
  intros [= <-]. unfold pruneGroup in Hg. destruct (_ >? _)%Z; [|done].
  destruct (removeAll_error store
              (Go.slice_from (Go.SortStringsReverse (default [] (groups !! c))) retention)
              e1) as (f & _ & ->); [by rewrite Hg|eauto].
Qed.

Lemma pruneCmd_fate flag cfg store n :
  (pruneCmd flag cfg store).1 !! n = store !! n ∨
  ((pruneCmd flag cfg store).1 !! n = None ∧
   ∃ commit, archiveKey store n = Some commit ∧
             n ∈ drop (Z.to_nat (effectiveRetention flag cfg))
                      (Go.SortStringsReverse (archivesOf store commit))).
Proof.
  unfold pruneCmd. fold (effectiveRetention flag cfg).
  destruct (_ <? _)%Z; [by left|].
  destruct (pruneGroups_any (effectiveRetention flag cfg) (groupSnapshots store)
              (keysOf (dom (groupSnapshots store))) store n)
    as [?|[Hn (c & _ & Hin)]]; [by left|right].
  split; [done|]. exists c. rewrite groupSnapshots_lookup in Hin. split; [|done].
  apply elem_of_archivesOf.
  eapply elem_of_sublist in Hin; [|apply sublist_drop].
  unfold Go.SortStringsReverse in Hin. by rewrite merge_sort_Permutation in Hin.
Qed.


(** What is left of a commit's archives after a prune without error. *)
Lemma pruneCmd_archives flag cfg store store' commit :
  pruneCmd flag cfg store = (store', None) →
  (1 ≤ effectiveRetention flag cfg)%Z ∧
  archivesOf store' commit ≡ₚ
    take (Z.to_nat (effectiveRetention flag cfg))
         (Go.SortStringsReverse (archivesOf store commit)).
Proof.
  intros Hp.
  assert (1 ≤ effectiveRetention flag cfg)%Z as Hr.
  { revert Hp. unfold pruneCmd. fold (effectiveRetention flag cfg).
    by destruct (Z.ltb_spec (effectiveRetention flag cfg) 1). }
  split; [done|].
  set (N := Z.to_nat (effectiveRetention flag cfg)).
  set (sd := Go.SortStringsReverse (archivesOf store commit)).
  assert (Hsd_perm : sd ≡ₚ archivesOf store commit) by apply merge_sort_Permutation.
  assert (Hsd_nodup : NoDup sd) by (rewrite Hsd_perm; apply archivesOf_NoDup).
  assert (Hfate : ∀ x, store' !! x = store !! x ∨
            (store' !! x = None ∧ ∃ c, archiveKey store x = Some c ∧
               x ∈ drop N (Go.SortStringsReverse (archivesOf store c)))).
  { intros x. pose proof (pruneCmd_fate flag cfg store x) as Hf.
    rewrite Hp in Hf. exact Hf. }
  assert (Hgone : ∀ x, x ∈ drop N sd → store' !! x = None).
  { intros x Hx. revert Hp. unfold pruneCmd. fold (effectiveRetention flag cfg).
    destruct (Z.ltb_spec (effectiveRetention flag cfg) 1); [lia|]. intros Hp.
    rewrite (pruneGroups_lookup _ _ _ _ _ Hr Hp). rewrite decide_True; [done|].
    apply Exists_exists. exists commit. rewrite groupSnapshots_lookup.
    split; [|done]. rewrite keysOf_perm, elem_of_elements, dom_groupSnapshots.
    intros Heq. unfold sd in Hx. rewrite Heq in Hx.
    eapply elem_of_sublist in Hx; [|apply sublist_drop].
    unfold Go.SortStringsReverse in Hx. rewrite merge_sort_Permutation in Hx.
    by apply elem_of_nil in Hx. }
  apply NoDup_Permutation; [apply archivesOf_NoDup| |].
  { eapply sublist_NoDup; [done|apply sublist_take]. }
  intros x. rewrite elem_of_archivesOf. split.
  - intros Hk. unfold archiveKey in Hk.
    destruct (Hfate x) as [Heq|[Hn _]]; [|by rewrite Hn in Hk].
    rewrite Heq in Hk. fold (archiveKey store x) in Hk.
    assert (x ∈ sd) as Hin by (rewrite Hsd_perm; by apply elem_of_archivesOf).
    rewrite <- (take_drop N sd) in Hin. apply elem_of_app in Hin as [?|Hin]; [done|].
    apply Hgone in Hin. rewrite Heq in Hin. unfold archiveKey in Hk.
    by rewrite Hin in Hk.
  - intros Hin.
    assert (archiveKey store x = Some commit) as Hk.
    { apply elem_of_archivesOf. rewrite <- Hsd_perm.
      eapply elem_of_sublist; [done|apply sublist_take]. }
    destruct (Hfate x) as [Heq|(_ & c & Hc & Hd)].
    + unfold archiveKey. rewrite Heq. exact Hk.
    + assert (c = commit) as -> by congruence. fold sd in Hd.
      rewrite <- (take_drop N sd) in Hsd_nodup.
      apply NoDup_app in Hsd_nodup as (_ & Hdisj & _). by apply Hdisj in Hin.
Qed.

(** X13. Pruning is idempotent: after a prune that ended without error,
    a second prune with the same retention finds nothing to delete and
    leaves the directory as it is, whether or not files can be
    removed. *)
Theorem prune_twice_is_noop (flag : Z) (cfg : Config)
    (store store' : gmap string dirent) :
  pruneCmd flag cfg store = (store', None) →
  pruneCmd flag cfg store' = (store', None).
Proof.
  intros Hp.
  assert (∀ c, (length (archivesOf store' c) ≤ Z.to_nat (effectiveRetention flag cfg))%nat)
    as Hlen.
  { intros c. destruct (pruneCmd_archives _ _ _ _ c Hp) as [_ ->].
    rewrite length_take. lia. }
  destruct (pruneCmd_archives _ _ _ _ EmptyString Hp) as [Hr _].
  unfold pruneCmd. fold (effectiveRetention flag cfg).
  destruct (Z.ltb_spec (effectiveRetention flag cfg) 1); [lia|].
  generalize (keysOf (dom (groupSnapshots store'))). intros commits.
  induction commits as [|c commits IH]; simpl; [done|].
  unfold pruneGroup. rewrite groupSnapshots_lookup.
  destruct (Z.gtb_spec (Go.len (Go.SortStringsReverse (archivesOf store' c)))
              (effectiveRetention flag cfg)) as [Hgt|_]; [|exact IH].
  unfold Go.len, Go.SortStringsReverse in Hgt.
  rewrite merge_sort_Permutation in Hgt. specialize (Hlen c). lia.
Qed.
End PruneSafety.

Lemma prune_twice_is_noop_witness :
  let store' := (@pruneCmd elements_order always_removable 1 demoConfig
                   (snapshots demoWorld2)).1 in
  @pruneCmd elements_order always_removable 1 demoConfig store' = (store', None) ∧
  store' !! snapshotFileName "abc123" july26 0 = None.
Proof.
  cbv zeta. split; [|vm_compute; reflexivity].
  apply (@prune_twice_is_noop elements_order always_removable 1 demoConfig
           (snapshots demoWorld2)).
  vm_compute. reflexivity.
Defined.

(** ** The retention test behind [LoadConfig] *)

Section CommandFacts.
Context `{YAML} `{PathMatch} `{Digest} `{JSON} `{MapOrder} `{RemoveOracle}.

Lemma pruneCmd_ErrRetention flag cfg (store : gmap string dirent) :
  (pruneCmd flag cfg store).2 = Some ErrRetention ↔
  (effectiveRetention flag cfg < 1)%Z.
Proof.
  unfold pruneCmd. fold (effectiveRetention flag cfg).
  destruct (Z.ltb_spec (effectiveRetention flag cfg) 1) as [Hlt|Hge]; [done|].
  split; [|lia]. intros (f & [=])%pruneGroups_error.
Qed.

Lemma LoadConfig_error (s s' : ConfigStore) (e : configError) :
  LoadConfig s = (s', inl e) →
  e = ErrCreateDefaultConfig ∨ e = ErrReadConfig ∨ e = ErrParseConfig.
Proof.
  unfold LoadConfig. destruct (cfgFile s) as [| |data].
  - destruct (SaveConfig DefaultConfig s) as [? [?|]]; [|done]. intros [= _ <-]. auto.
  - intros [= _ <-]. auto.
  - destruct (yamlUnmarshal data); [done|]. intros [= _ <-]. auto.
Qed.

(** X14. The retention test of [ValidateConfig] and of [pruneCmd] cannot
    fail on a configuration that came from [LoadConfig]: a retention
    below 1 in the file has been replaced by the default before it is
    tested.  So [snapshotCmd] never ends with the retention error, and
    [pruneCmd] exactly when the configuration could be loaded and the
    [--retention] flag itself is negative. *)
Theorem retention_error_unreachable (commit : string) (ignored : list string)
    (now : GoTime) (s : ConfigStore) (w : World) (flag : Z) :
  (snapshotCmd commit ignored now s w).2 ≠ inl ErrRetentionConfig ∧
  ((pruneCmdRunE flag s (snapshots w)).2 = inr (Some ErrRetention) ↔
   (flag < 0)%Z ∧ ∃ s' cfg, LoadConfig s = (s', inr cfg)).
Proof.
  unfold snapshotCmd, pruneCmdRunE.
  destruct (LoadConfig s) as [s' [e|cfg]] eqn:Hl.
  { split.
    - simpl. intros [= ->]. by destruct (LoadConfig_error _ _ _ Hl) as [?|[?|?]].
    - simpl. split; [done|]. by intros (_ & ? & ? & ?). }
  destruct (LoadConfig_ok _ _ _ Hl) as (Hr & _). split.
  - unfold ValidateConfig. destruct (Z.ltb_spec (Retention cfg) 1); [lia|].
    destruct (firstInvalid (SnapshotOn cfg)); [done|].
    destruct (firstInvalid (RestoreOn cfg)); [done|].
    by destruct (CreateSnapshot commit ignored now cfg w).
  - pose proof (pruneCmd_ErrRetention flag cfg (snapshots w)) as Hp.
    destruct (pruneCmd flag cfg (snapshots w)) as [store' r]. simpl in *.
    unfold effectiveRetention in Hp. split.
    + intros [= ->]. apply proj1 in Hp. specialize (Hp eq_refl).
      destruct (Z.eqb_spec flag 0); [lia|]. split; [lia|eauto].
    + intros [Hf _]. f_equal. apply Hp. destruct (Z.eqb_spec flag 0); lia.
Qed.
End CommandFacts.

Lemma LoadConfig_fills_defaults_witness :
  @LoadConfig binary_yaml sparseStore = (sparseStore, inr sparseLoaded) ∧
  (1 ≤ Retention sparseLoaded)%Z ∧ Exclude sparseLoaded = Exclude sparseConfig.
Proof.
  assert (@LoadConfig binary_yaml sparseStore = (sparseStore, inr sparseLoaded)) as Hl
    by (vm_compute; reflexivity).
  split; [exact Hl|].
  destruct (@LoadConfig_fills_defaults binary_yaml sparseStore sparseStore sparseLoaded Hl)
    as (Hr & _ & _ & Hd).
  split; [exact Hr|].
  destruct (Hd (@yamlMarshal binary_yaml sparseConfig) sparseConfig eq_refl
              (@yamlUnmarshal_Marshal binary_yaml sparseConfig)) as (_ & He & _).
  exact He.
Defined.

Lemma SaveConfig_LoadConfig_witness :
  let s' := {| cfgFile := ConfigData (@yamlMarshal binary_yaml demoConfig);
               cfgWritable := true |} in
  @LoadConfig binary_yaml s' = (s', inr demoConfig).
Proof.
  cbv zeta. apply (@SaveConfig_LoadConfig binary_yaml demoConfig freshStore).
  - reflexivity.
  - vm_compute. discriminate.
  - discriminate.
  - discriminate.
Defined.

Lemma LoadConfig_creates_default_witness :
  (@LoadConfig binary_yaml freshStore).2 = inr DefaultConfig.
Proof.
  destruct (@LoadConfig_creates_default binary_yaml freshStore eq_refl) as [Hw _].
  destruct (Hw eq_refl) as [Hl _]. rewrite Hl. reflexivity.
Defined.

(** ** The filter as a function of the set of candidates *)

Section FilterSetFacts.
Context `{PathMatch} `{MapOrder}.

Lemma filterFiles_NoDup (files : list string) (cfg : Config) :
  NoDup (filterFiles files cfg).
Proof. unfold filterFiles. rewrite keysOf_perm. apply NoDup_elements. Qed.

(** X15. The filter depends on the candidates only as a set: candidates
    listed twice, or in another order, give the same output up to its
    order; it is idempotent, filtering its own output changes nothing;
    and with no exclude pattern every candidate passes, once. *)
Theorem filterFiles_set_function (files files' : list string) (cfg : Config) :
  ((∀ x, x ∈ files ↔ x ∈ files') →
     filterFiles files cfg ≡ₚ filterFiles files' cfg) ∧
  filterFiles (filterFiles files cfg) cfg ≡ₚ filterFiles files cfg ∧
  (Exclude cfg = [] → filterFiles files cfg ≡ₚ remove_dups files).
Proof.
  split; [|split].
  - intros Hset. apply NoDup_Permutation; [apply filterFiles_NoDup..|].
    intros x. rewrite !elem_of_filterFiles, !elem_of_includedMap, Hset. done.
  - apply NoDup_Permutation; [apply filterFiles_NoDup..|].
    intros x. rewrite !elem_of_filterFiles, !elem_of_includedMap.
    rewrite elem_of_filterFiles, elem_of_includedMap. tauto.
  - intros Hex. apply NoDup_Permutation;
      [apply filterFiles_NoDup|apply NoDup_remove_dups|].
    intros x. rewrite elem_of_filterFiles, elem_of_includedMap, elem_of_remove_dups.
    rewrite Hex. simpl. tauto.
Qed.
End FilterSetFacts.

(** ** Status report *)

Lemma filter_ext_in {A} (P Q : A → Prop) `{∀ x, Decision (P x)} `{∀ x, Decision (Q x)}
    (l : list A) :
  (∀ x, x ∈ l → (P x ↔ Q x)) → filter P l = filter Q l.
Proof.
  induction l as [|x l IH]; intros Hpq; [done|].
  assert (filter P l = filter Q l) as Hl by (apply IH; intros y Hy; apply Hpq; by right).
  destruct (decide (P x)) as [HP|HP].
  - rewrite !filter_cons_True; [by rewrite Hl|by apply Hpq; [left|]|done].
  - rewrite !filter_cons_False; [done| |done]. intros HQ. apply HP, Hpq; [left|done].
Qed.

Lemma foldl_snoc_app {A} (acc l : list A) :
  foldl (fun acc x => acc ++ [x]) acc l = acc ++ l.
Proof.
  revert acc. induction l as [|x l IH]; intros acc; simpl; [by rewrite app_nil_r|].
  by rewrite IH, <- app_assoc.
Qed.

Lemma foldl_delete_lookup (m : gmap string string) (ks : list string) (f : string) :
  foldl (fun m k => delete k m) m ks !! f = if decide (f ∈ ks) then None else m !! f.
Proof.
  revert m. induction ks as [|k ks IH]; intros m; cbn [foldl].
  - by rewrite decide_False by apply not_elem_of_nil.
  - rewrite IH. destruct (decide (f ∈ ks)) as [Hin|Hin].
    + by rewrite decide_True by (by right).
    + destruct (decide (f = k)) as [->|Hne].
      * rewrite decide_True by left. apply lookup_delete_eq.
      * rewrite decide_False by (by intros [?|?]%elem_of_cons).
        by apply lookup_delete_ne.
Qed.

Lemma SortStrings_perm (l k : list string) :
  l ≡ₚ k → Go.SortStrings l = Go.SortStrings k.
Proof.
  intros Hp. apply (Sorted_unique String.le).
  - apply Sorted_merge_sort; apply _.
  - apply Sorted_merge_sort; apply _.
  - unfold Go.SortStrings. by rewrite !merge_sort_Permutation.
Qed.

Lemma elem_of_SortStrings (l : list string) (x : string) :
  x ∈ Go.SortStrings l ↔ x ∈ l.
Proof. unfold Go.SortStrings. by rewrite merge_sort_Permutation. Qed.

Lemma NoDup_SortStrings (l : list string) : NoDup (Go.SortStrings l) ↔ NoDup l.
Proof. unfold Go.SortStrings. by rewrite merge_sort_Permutation. Qed.

Lemma SortStrings_sorted (l : list string) : StronglySorted String.le (Go.SortStrings l).
Proof. apply StronglySorted_merge_sort; apply _. Qed.

Section StatusFacts.
Context `{PathMatch} `{Digest} `{JSON}.

(** The loop over the snapshot's files, over distinct keys: each slice
    grows by the keys of its kind, in the order of the loop, and the keys
    are deleted from the map. *)
Lemma compareLoop snap (ks : list string) c0 cur0 :
  NoDup ks →
  foldl (compareStep snap) (c0, cur0) ks =
    ({| unchanged := unchanged c0 ++ filter (fun f => classify snap cur0 f = StUnchanged) ks;
        modified := modified c0 ++ filter (fun f => classify snap cur0 f = StModified) ks;
        added := added c0;
        deleted := deleted c0 ++ filter (fun f => classify snap cur0 f = StDeleted) ks |},
     foldl (fun m k => delete k m) cur0 ks).
Proof.
  intros Hnd. revert c0 cur0.
  induction Hnd as [|k ks Hk _ IH]; intros c0 cur0; simpl.
  - rewrite !app_nil_r. by destruct c0.
  - rewrite IH.
    assert (∀ st, filter (fun f => classify snap (delete k cur0) f = st) ks =
                  filter (fun f => classify snap cur0 f = st) ks) as Hext.
    { intros st. apply filter_ext_in. intros f Hf. unfold classify.
      rewrite lookup_delete_ne; [done|]. by intros <-. }
    rewrite !Hext. f_equal.
    destruct (cur0 !! k) as [s|] eqn:Hcur;
      [destruct (negb (String.eqb s (default EmptyString (snap !! k)))) eqn:Hneg|].
    + assert (classify snap cur0 k = StModified) as Hc
        by (unfold classify; by rewrite Hcur, Hneg).
      rewrite (filter_cons_True (fun f => classify snap cur0 f = StModified)) by done.
      rewrite !filter_cons_False by (rewrite Hc; done).
      simpl. by rewrite <- app_assoc.
    + assert (classify snap cur0 k = StUnchanged) as Hc
        by (unfold classify; by rewrite Hcur, Hneg).
      rewrite (filter_cons_True (fun f => classify snap cur0 f = StUnchanged)) by done.
      rewrite !filter_cons_False by (rewrite Hc; done).
      simpl. by rewrite <- app_assoc.
    + assert (classify snap cur0 k = StDeleted) as Hc
        by (unfold classify; by rewrite Hcur).
      rewrite (filter_cons_True (fun f => classify snap cur0 f = StDeleted)) by done.
      rewrite !filter_cons_False by (rewrite Hc; done).
      simpl. by rewrite <- app_assoc.
Qed.

Context `{MapOrder}.

Lemma compareFiles_eq snap cur :
  compareFiles snap cur =
    ({| unchanged := Go.SortStrings
          (filter (fun f => classify snap cur f = StUnchanged) (keysOf (dom snap)));
        modified := Go.SortStrings
          (filter (fun f => classify snap cur f = StModified) (keysOf (dom snap)));
        added := Go.SortStrings
          (keysOf (dom (foldl (fun m k => delete k m) cur (keysOf (dom snap)))));
        deleted := Go.SortStrings
          (filter (fun f => classify snap cur f = StDeleted) (keysOf (dom snap))) |},
     foldl (fun m k => delete k m) cur (keysOf (dom snap))).
Proof.
  unfold compareFiles. rewrite compareLoop.
  - simpl. by rewrite foldl_snoc_app.
  - rewrite keysOf_perm. apply NoDup_elements.
Qed.

Lemma compareFiles_left snap cur f :
  (compareFiles snap cur).2 !! f = if decide (f ∈ dom snap) then None else cur !! f.
Proof.
  rewrite compareFiles_eq. simpl. rewrite foldl_delete_lookup.
  destruct (decide (f ∈ dom snap)) as [Hin|Hin].
  - rewrite decide_True; [done|]. by rewrite keysOf_perm, elem_of_elements.
  - rewrite decide_False; [done|]. by rewrite keysOf_perm, elem_of_elements.
Qed.

Lemma compareFiles_members (snap cur : gmap string string) :
  let c := (compareFiles snap cur).1 in
  (∀ f, f ∈ unchanged c ↔ ∃ s, snap !! f = Some s ∧ cur !! f = Some s) ∧
  (∀ f, f ∈ modified c ↔ ∃ s s', snap !! f = Some s ∧ cur !! f = Some s' ∧ s' ≠ s) ∧
  (∀ f, f ∈ deleted c ↔ is_Some (snap !! f) ∧ cur !! f = None) ∧
  (∀ f, f ∈ added c ↔ snap !! f = None ∧ is_Some (cur !! f)) ∧
  Forall (fun l => StronglySorted String.le l ∧ NoDup l)
         [unchanged c; modified c; added c; deleted c].
Proof.
  cbv zeta. rewrite compareFiles_eq. simpl.
  assert (∀ st f,
    f ∈ Go.SortStrings (filter (fun f => classify snap cur f = st) (keysOf (dom snap))) ↔
    is_Some (snap !! f) ∧ classify snap cur f = st) as Hmem.
  { intros st f. rewrite elem_of_SortStrings, list_elem_of_filter, keysOf_perm,
      elem_of_elements, elem_of_dom. tauto. }
  assert (∀ st, NoDup (Go.SortStrings
            (filter (fun f => classify snap cur f = st) (keysOf (dom snap))))) as Hnd.
  { intros st. apply NoDup_SortStrings, NoDup_filter. rewrite keysOf_perm.
    apply NoDup_elements. }
  split; [|split; [|split; [|split]]].
  - intros f. rewrite Hmem. unfold classify. split.
    + intros [[s Hs] Hc]. rewrite Hs in Hc. simpl in Hc.
      destruct (cur !! f) as [s'|] eqn:Hcur; [|done].
      destruct (String.eqb_spec s' s) as [Heq|Hne]; [subst; eauto|done].
    + intros (s & Hs & Hc). rewrite Hs, Hc. simpl. rewrite String.eqb_refl. eauto.
  - intros f. rewrite Hmem. unfold classify. split.
    + intros [[s Hs] Hc]. rewrite Hs in Hc. simpl in Hc.
      destruct (cur !! f) as [s'|] eqn:Hcur; [|done].
      destruct (String.eqb_spec s' s) as [Heq|Hne]; [done|]. by exists s, s'.
    + intros (s & s' & Hs & Hc & Hne). rewrite Hs, Hc. simpl.
      apply String.eqb_neq in Hne. rewrite Hne. eauto.
  - intros f. rewrite Hmem. unfold classify. split.
    + intros [Hs Hc]. split; [done|].
      destruct (cur !! f) as [s'|]; [|done]. by destruct (negb _).
    + intros [Hs ->]. done.
  - intros f. rewrite elem_of_SortStrings, keysOf_perm, elem_of_elements, elem_of_dom.
    rewrite foldl_delete_lookup. destruct (decide (f ∈ keysOf (dom snap))) as [Hin|Hin].
    + rewrite keysOf_perm, elem_of_elements, elem_of_dom in Hin.
      split; [by intros [? ?]|]. intros [Hn _]. rewrite Hn in Hin. by destruct Hin.
    + rewrite keysOf_perm, elem_of_elements, elem_of_dom in Hin.
      split; [|by intros [_ ?]]. intros Hc. split; [|done].
      by apply eq_None_not_Some.
  - repeat constructor; try apply SortStrings_sorted; try apply Hnd.
    apply NoDup_SortStrings. rewrite keysOf_perm. apply NoDup_elements.
Qed.
(** X16. The comparison of [statusCmd].  A file is reported unchanged
    when snapshot and working tree hold the same checksum for it,
    modified when they hold different ones, deleted when only the
    snapshot has it, and new when only the working tree has it; each of
    the four lists is sorted and free of repetitions, and every file of
    either side is in exactly one of them. *)
Theorem compareFiles_classifies (snap cur : gmap string string) :
  let c := (compareFiles snap cur).1 in
  (∀ f, f ∈ unchanged c ↔ ∃ s, snap !! f = Some s ∧ cur !! f = Some s) ∧
  (∀ f, f ∈ modified c ↔ ∃ s s', snap !! f = Some s ∧ cur !! f = Some s' ∧ s' ≠ s) ∧
  (∀ f, f ∈ deleted c ↔ is_Some (snap !! f) ∧ cur !! f = None) ∧
  (∀ f, f ∈ added c ↔ snap !! f = None ∧ is_Some (cur !! f)) ∧
  Forall (fun l => StronglySorted String.le l ∧ NoDup l)
         [unchanged c; modified c; added c; deleted c].
Proof. apply compareFiles_members. Qed.
End StatusFacts.

Section StatusOrder.
Context `{PathMatch} `{Digest} `{JSON}.

(** X17. The report of [statusCmd] does not depend on the order in
    which the two maps are ranged over: the outcome, the four lists and
    every printed line are the same for any two orders.  The command
    never panics. *)
Theorem statusCmd_order_independent (o1 o2 : MapOrder) (verbose : bool)
    (commit : string) (currentFiles : list string) (w : World) :
  @statusCmd _ _ _ o1 verbose commit currentFiles w =
  @statusCmd _ _ _ o2 verbose commit currentFiles w ∧
  ∀ p, @statusCmd _ _ _ o1 verbose commit currentFiles w ≠ StatusPanic p.
Proof.
  assert (∀ snap cur, @compareFiles o1 snap cur = @compareFiles o2 snap cur) as Hcmp.
  { intros snap cur. rewrite !compareFiles_eq.
    assert (@keysOf o1 (dom snap) ≡ₚ @keysOf o2 (dom snap)) as Hk
      by (by rewrite !keysOf_perm).
    assert (foldl (fun m k => delete k m) cur (@keysOf o1 (dom snap)) =
            foldl (fun m k => delete k m) cur (@keysOf o2 (dom snap))) as Hleft.
    { apply map_eq. intros f. rewrite !foldl_delete_lookup.
      destruct (decide (f ∈ @keysOf o1 (dom snap))) as [Hin|Hin].
      - rewrite decide_True; [done|]. by rewrite <- Hk.
      - rewrite decide_False; [done|]. by rewrite <- Hk. }
    rewrite Hleft. f_equal. f_equal.
    - apply SortStrings_perm. by rewrite Hk.
    - apply SortStrings_perm. by rewrite Hk.
    - apply SortStrings_perm.
      etrans; [apply (@keysOf_perm o1)|symmetry; apply (@keysOf_perm o2)].
    - apply SortStrings_perm. by rewrite Hk. }
  split.
  { unfold statusCmd. destruct (findLatestSnapshot _ _) as [m| |]; [|done..].
    destruct (checksumAll _ _ _) as [|cur]; [done|]. by rewrite Hcmp. }
  intros p. unfold statusCmd, findLatestSnapshot, latestSelect.
  destruct (Glob (snapshots w) (snapshotPattern commit)) as [matches [|]]; [done|].
  destruct (Z.eqb_spec (Go.len matches) 0) as [|Hne]; [done|].
  assert (∃ x, Go.index (Go.SortStringsReverse matches) 0 = Ok x) as [x ->].
  { unfold Go.index, Go.len, Go.SortStringsReverse in *.
    assert (length (merge_sort Go.string_ge matches) = length matches) as Hlen
      by (by rewrite merge_sort_Permutation).
    rewrite Hlen. destruct (Z.leb_spec (Z.of_nat (length matches)) 0); [lia|]. simpl.
    destruct (merge_sort Go.string_ge matches); [simpl in Hlen; lia|]. eauto. }
  destruct (openSnapshot (snapshots w) x) as [file|]; [|done].
  unfold ReadManifest. destruct file as [|[items|]]; [done| |done].
  assert (∀ p, scanManifest items ≠ Panic p) as Hscan.
  { clear. intros p. induction items as [|[hdr body|] items IH]; simpl; [done| |done].
    destruct (String.eqb _ _); [|done]. by destruct (Unmarshal body). }
  destruct (scanManifest items) as [m| |p']; [| done |by destruct (Hscan p')].
  destruct (checksumAll (tree w) currentFiles ∅); [done|].
  by destruct (compareFiles (Files m) g).
Qed.

(** X18. With [--verbose], the line "New checksum" of a modified file
    never shows a checksum: the entry of every file of the snapshot has
    been deleted from the map of current checksums before the report is
    printed, so the line is printed with the empty string. *)
Theorem statusCmd_new_checksum_empty `{MapOrder} (verbose : bool) (commit : string)
    (currentFiles : list string) (w : World) (c : comparison)
    (out : list statusLine) (sum : string) :
  statusCmd verbose commit currentFiles w = StatusDone c out →
  NewChecksum sum ∈ out → sum = EmptyString.
Proof.
  unfold statusCmd. destruct (findLatestSnapshot _ _) as [m| |]; [|done..].
  destruct (checksumAll _ _ _) as [|cur]; [done|].
  pose proof (compareFiles_members (Files m) cur) as (_ & Hmod & _).
  pose proof (compareFiles_left (Files m) cur) as Hleft.
  destruct (compareFiles (Files m) cur) as [c' cur']. simpl in *.
  intros [= <- <-]. unfold statusLines, fileSection, modifiedSection.
  rewrite elem_of_cons, !elem_of_app.
  intros [?|[Hin|[Hin|[Hin|Hin]]]]; [done| | | |].
  - destruct (_ >? _)%Z; [|by apply elem_of_nil in Hin].
    apply elem_of_cons in Hin as [?|Hin]; [done|].
    by apply list_elem_of_fmap in Hin as (? & ? & ?).
  - destruct (_ >? _)%Z; [|by apply elem_of_nil in Hin].
    apply elem_of_cons in Hin as [?|Hin]; [done|].
    apply list_elem_of_join in Hin as (l & Hin & Hl).
    apply list_elem_of_fmap in Hl as (f & -> & Hf).
    apply elem_of_cons in Hin as [?|Hin]; [done|].
    destruct verbose; [|by apply elem_of_nil in Hin].
    apply elem_of_cons in Hin as [?|Hin]; [done|].
    apply list_elem_of_singleton in Hin as [= ->].
    apply Hmod in Hf as (s & _ & Hs & _). rewrite Hleft.
    rewrite decide_True; [done|]. apply elem_of_dom. eauto.
  - destruct (_ >? _)%Z; [|by apply elem_of_nil in Hin].
    apply elem_of_cons in Hin as [?|Hin]; [done|].
    by apply list_elem_of_fmap in Hin as (? & ? & ?).
  - destruct (_ >? _)%Z; [|by apply elem_of_nil in Hin].
    apply elem_of_cons in Hin as [?|Hin]; [done|].
    by apply list_elem_of_fmap in Hin as (? & ? & ?).
Qed.
End StatusOrder.

Section StatusAfterSnapshot.
Context `{PathMatch} `{Digest} `{JSON} `{MapOrder}.

Lemma checksumAll_ok (t : gmap string node) (files : list string)
    (acc : gmap string string) :
  Forall (fun p => ∃ mode data, t !! p = Some (File mode data)) files →
  ∃ cur, checksumAll t files acc = inr cur ∧
         ∀ f, cur !! f = if decide (f ∈ files) then calculateChecksum t f else acc !! f.
Proof.
  intros Hall. revert acc.
  induction Hall as [|p files (mode & data & Hp) _ IH]; intros acc; cbn [checksumAll].
  - exists acc. split; [done|]. intros f.
    by rewrite decide_False by apply not_elem_of_nil.
  - unfold calculateChecksum at 1. rewrite Hp.
    destruct (IH (<[p := EncodeToString (Sum256 data)]> acc)) as (cur & -> & Hcur).
    exists cur. split; [done|]. intros f. rewrite Hcur.
    destruct (decide (f ∈ files)) as [Hin|Hin].
    + by rewrite decide_True by (by right).
    + destruct (decide (f = p)) as [->|Hne].
      * rewrite decide_True by left. rewrite lookup_insert_eq.
        unfold calculateChecksum. by rewrite Hp.
      * rewrite decide_False by (by intros [?|?]%elem_of_cons).
        by rewrite lookup_insert_ne.
Qed.

Lemma sorted_lists_eq (l k : list string) :
  StronglySorted String.le l → NoDup l →
  StronglySorted String.le k → NoDup k →
  (∀ x, x ∈ l ↔ x ∈ k) → l = k.
Proof.
  intros Hl Hnl Hk Hnk Hmem. apply (StronglySorted_unique String.le); [done..|].
  by apply NoDup_Permutation.
Qed.

(** X19. Status right after a snapshot.  When every candidate is a
    regular file, none of the archived ones is called [manifest.json],
    and the new archive has the greatest name of its commit, [statusCmd]
    reports every archived file as unchanged and none as modified or
    deleted; the candidates that the filter kept out of the snapshot are
    reported as new, for the status compares the snapshot with the
    unfiltered candidates. *)
Theorem status_after_snapshot (commit : string) (ignored : list string)
    (now : GoTime) (cfg : Config) (w w1 : World) (verbose : bool) :
  let files := filterFiles ignored cfg in
  let name := snapshotFileName commit now (getNextIndex (snapshots w) commit) in
  CreateSnapshot commit ignored now cfg w = (w1, Ok ()) →
  manifestName ∉ files →
  Forall (fun p => ∃ mode data, tree w !! p = Some (File mode data)) ignored →
  latestSelect (snapshots w1) commit = Ok (Go.Join snapshotsDir name) →
  ∃ c out,
    statusCmd verbose commit ignored w1 = StatusDone c out ∧
    unchanged c = Go.SortStrings files ∧ modified c = [] ∧ deleted c = [] ∧
    (∀ f, f ∈ added c ↔ f ∈ ignored ∧ f ∉ files).
Proof.
  intros files name Hcs Hres Hreg Hlatest.
  assert (∀ f, f ∈ files → f ∈ ignored) as Hsub.
  { intros f. unfold files. rewrite elem_of_filterFiles, elem_of_includedMap. tauto. }
  pose proof Hcs as Hok. apply CreateSnapshot_Ok in Hok as (Hall & Htree & _).
  fold files in Hall.
  assert (files ≠ []) as Hne.
  { intros Hnil. revert Hcs. unfold CreateSnapshot. fold files. by rewrite Hnil. }
  destruct (CreateSnapshot_ReadManifest commit ignored now cfg w Hne Hres Hall)
    as (w' & m & Hcs' & _ & Hread & _ & Hdom & Hsum).
  rewrite Hcs in Hcs'. injection Hcs' as <-. fold name in Hread.
  destruct (checksumAll_ok (tree w) ignored ∅ Hreg) as (cur & Hcur & Hlook).
  unfold statusCmd, findLatestSnapshot.
  rewrite Hlatest, openSnapshot_Join.
  destruct (snapshots w1 !! name) as [file|]; [|done]. simpl in Hread.
  injection Hread as ->. rewrite Htree, Hcur.
  pose proof (compareFiles_members (Files m) cur) as (Hu & Hm & Hd & Ha & Hs).
  destruct (compareFiles (Files m) cur) as [c cur']. simpl in *.
  eexists c, _. split; [done|].
  apply Forall_cons in Hs as [[Hsu Hnu] Hs].
  assert (∀ f, f ∈ files → ∃ s, Files m !! f = Some s ∧ cur !! f = Some s) as Hsame.
  { intros f Hf. rewrite Forall_forall in Hall.
    destruct (Hall f Hf) as (mode & data & Hfile).
    exists (EncodeToString (Sum256 data)). split; [by eapply Hsum|].
    rewrite Hlook, decide_True by auto. unfold calculateChecksum. by rewrite Hfile. }
  assert (∀ f, is_Some (Files m !! f) ↔ f ∈ files) as Hkeys.
  { intros f. rewrite <- elem_of_dom, Hdom. by rewrite elem_of_list_to_set. }
  split; [|split; [|split]].
  - apply sorted_lists_eq; [done..|apply SortStrings_sorted| |].
    + apply NoDup_SortStrings. unfold files, filterFiles.
      rewrite keysOf_perm. apply NoDup_elements.
    + intros f. rewrite Hu, elem_of_SortStrings. split.
      * intros (s & Hs' & _). apply Hkeys. eauto.
      * apply Hsame.
  - apply elem_of_nil_inv. intros f (s & s' & Hs1 & Hs2 & Hne')%Hm.
    destruct (Hsame f) as (s0 & Hs0 & Hc0); [apply Hkeys; eauto|]. congruence.
  - apply elem_of_nil_inv. intros f [Hs' Hc]%Hd.
    destruct (Hsame f) as (s0 & Hs0 & Hc0); [by apply Hkeys|]. congruence.
  - intros f. rewrite Ha, Hlook. split.
    + intros [Hn Hc]. destruct (decide (f ∈ ignored)) as [Hin|Hin].
      * split; [done|]. intros Hf%Hkeys. rewrite Hn in Hf. by destruct Hf.
      * rewrite lookup_empty in Hc. by destruct Hc.
    + intros [Hin Hf]. split.
      * apply eq_None_not_Some. by rewrite Hkeys.
      * rewrite decide_True by done. rewrite Forall_forall in Hreg.
        destruct (Hreg f Hin) as (mode & data & Hfile).
        unfold calculateChecksum. rewrite Hfile. eauto.
Qed.
End StatusAfterSnapshot.

Lemma statusCmd_new_checksum_empty_witness :
  let c := mkComparison [] [".env"] [] ["build/out.txt"] in
  let out := [SnapshotForCommit "abc123"; ModifiedFiles; FileLine ".env";
              OldChecksum "0179"; NewChecksum EmptyString;
              DeletedFiles; FileLine "build/out.txt"] in
  @statusCmd simple_glob xor_digest binary_json elements_order true "abc123" [".env"]
    restoreWorld = StatusDone c out ∧
  NewChecksum EmptyString ∈ out ∧
  EmptyString = EmptyString.
Proof.
  cbv zeta.
  assert (@statusCmd simple_glob xor_digest binary_json elements_order true "abc123"
            [".env"] restoreWorld =
          StatusDone (mkComparison [] [".env"] [] ["build/out.txt"])
            [SnapshotForCommit "abc123"; ModifiedFiles; FileLine ".env";
             OldChecksum "0179"; NewChecksum EmptyString;
             DeletedFiles; FileLine "build/out.txt"]) as Hrun
    by (vm_compute; reflexivity).
  assert (NewChecksum EmptyString ∈
            [SnapshotForCommit "abc123"; ModifiedFiles; FileLine ".env";
             OldChecksum "0179"; NewChecksum EmptyString;
             DeletedFiles; FileLine "build/out.txt"]) as Hin
    by (repeat constructor).
  split; [exact Hrun|]. split; [exact Hin|].
  exact (@statusCmd_new_checksum_empty simple_glob xor_digest binary_json elements_order
           true "abc123" [".env"] restoreWorld _ _ EmptyString Hrun Hin).
Defined.

Lemma status_after_snapshot_witness :
  ∃ c out,
    @statusCmd simple_glob xor_digest binary_json elements_order false "abc123"
      demoIgnored hiddenWorld = StatusDone c out ∧
    unchanged c = ["build/out.txt"] ∧ modified c = [] ∧ deleted c = [] ∧
    ".env" ∈ added c.
Proof.
  destruct (@status_after_snapshot simple_glob xor_digest binary_json elements_order
              "abc123" demoIgnored july26 hiddenConfig demoWorld0 hiddenWorld false)
    as (c & out & Hrun & Hu & Hm & Hd & Ha).
  - vm_compute. reflexivity.
  - compute_done.
  - vm_compute. repeat constructor; eexists _, _; reflexivity.
  - vm_compute. reflexivity.
  - exists c, out. split; [exact Hrun|]. split; [rewrite Hu; vm_compute; reflexivity|].
    split; [exact Hm|]. split; [exact Hd|]. apply Ha. split; compute_done.
Defined.

(** ** Listing *)

Lemma string_compare_refl (a : string) : String.compare a a = Eq.
Proof.
  pose proof (String.compare_antisym a a) as Ha.
  by destruct (String.compare a a).
Qed.

Lemma ltb_irrefl (a : string) : String.ltb a a = false.
Proof. unfold String.ltb. by rewrite string_compare_refl. Qed.

Lemma ltb_trans (a b c : string) :
  String.ltb a b = true → String.ltb b c = true → String.ltb a c = true.
Proof.
  unfold String.ltb. intros Hab Hbc.
  destruct (String.compare a b) eqn:E1; try done.
  destruct (String.compare b c) eqn:E2; try done.
  by rewrite (compare_lt_trans _ _ _ E1 E2).
Qed.

Lemma ltb_false_ne (a b : string) :
  String.ltb a b = false → a ≠ b → String.ltb b a = true.
Proof.
  unfold String.ltb. rewrite (String.compare_antisym b a).
  destruct (String.compare a b) eqn:E; try done.
  by apply String.compare_eq_iff in E.
Qed.

Lemma ltb_asym (a b : string) : String.ltb a b = true → String.ltb b a = false.
Proof.
  unfold String.ltb. rewrite (String.compare_antisym b a).
  by destruct (String.compare a b).
Qed.

Lemma ltb_negtrans (a b c : string) :
  String.ltb a b = false → String.ltb b c = false → String.ltb a c = false.
Proof.
  intros Hab Hbc. destruct (String.ltb a c) eqn:Hac; [|done].
  destruct (decide (a = b)) as [->|Hne1]; [congruence|].
  destruct (decide (b = c)) as [->|Hne2]; [congruence|].
  pose proof (ltb_false_ne _ _ Hab Hne1) as Hba.
  pose proof (ltb_false_ne _ _ Hbc Hne2) as Hcb.
  pose proof (ltb_trans _ _ _ Hcb Hba) as Hca.
  apply ltb_asym in Hca. congruence.
Qed.

Lemma lex_ltb_irrefl (l : list N) : lex_ltb l l = false.
Proof.
  induction l as [|x l IH]; [done|]. simpl.
  by rewrite N.ltb_irrefl, N.eqb_refl, IH.
Qed.

Lemma lex_ltb_trans (a b c : list N) :
  lex_ltb a b = true → lex_ltb b c = true → lex_ltb a c = true.
Proof.
  revert b c. induction a as [|x a IH]; intros [|y b] [|z c]; simpl; try done.
  rewrite !orb_true_iff, !andb_true_iff, !N.ltb_lt, !N.eqb_eq.
  intros [?|[? ?]] [?|[? ?]]; [left; lia..|].
  right. split; [lia|]. by eapply IH.
Qed.

Lemma lex_ltb_negtrans (a b c : list N) :
  lex_ltb a b = false → lex_ltb b c = false → lex_ltb a c = false.
Proof.
  revert b c. induction a as [|x a IH]; intros [|y b] [|z c]; simpl; try done.
  rewrite !orb_false_iff, !andb_false_iff, !N.ltb_ge, !N.eqb_neq.
  intros [? [?|?]] [? [?|?]]; (split; [lia|]); try (left; lia).
  destruct (decide (x = z)) as [->|]; [|by left].
  destruct (decide (z = y)) as [->|]; [|left; lia].
  right. by eapply IH.
Qed.

Lemma lessInfo_strictWeakOrder : strictWeakOrder lessInfo.
Proof.
  unfold lessInfo, Before. split; [|split].
  - intros a. rewrite String.eqb_refl. cbn [negb]. apply lex_ltb_irrefl.
  - intros a b c.
    destruct (String.eqb_spec (infoCommit a) (infoCommit b)) as [Hab|Hab];
    destruct (String.eqb_spec (infoCommit b) (infoCommit c)) as [Hbc|Hbc];
    destruct (String.eqb_spec (infoCommit a) (infoCommit c)) as [Hac|Hac];
    cbn [negb]; try congruence.
    + apply lex_ltb_trans.
    + rewrite Hac. intros H1 H2. apply ltb_asym in H1. congruence.
    + apply ltb_trans.
  - intros a b c.
    destruct (String.eqb_spec (infoCommit a) (infoCommit b)) as [Hab|Hab];
    destruct (String.eqb_spec (infoCommit b) (infoCommit c)) as [Hbc|Hbc];
    destruct (String.eqb_spec (infoCommit a) (infoCommit c)) as [Hac|Hac];
    cbn [negb]; try congruence.
    + apply lex_ltb_negtrans.
    + rewrite Hac. intros H1 H2.
      pose proof (ltb_false_ne _ _ H1 ltac:(congruence)) as H1'. congruence.
    + apply ltb_negtrans.
Qed.

Section ListFacts.
Context `{JSON}.

Lemma scanManifest_no_panic items p : scanManifest items ≠ Panic p.
Proof.
  induction items as [|[hdr body|] items IH]; simpl; [done| |done].
  destruct (String.eqb _ _); [|done]. by destruct (Unmarshal body).
Qed.

Lemma ReadManifest_no_panic file p : ReadManifest file ≠ Panic p.
Proof. destruct file as [|[items|]]; simpl; [done| |done]. apply scanManifest_no_panic. Qed.

(** The information [listCmd] keeps of a readable archive. *)
Lemma collectSnapshots_listed store names snapshots :
  ∃ warnings,
    collectSnapshots store names snapshots =
      Ok (snapshots ++
          ((fun '(name, m) => {| infoPath := name; infoCommit := CommitHash m;
                                 infoTimestamp := Timestamp m; infoIndex := Index m |})
             <$> omap (readable store) names),
          warnings) ∧
    ∀ line, line ∈ warnings →
      ∃ name e, line = WarnManifest name e ∧ name ∈ names ∧
                ∃ gz, store !! name = Some (EntFile gz) ∧
                      ReadManifest (EntFile gz) = Err e.
Proof.
  revert snapshots. induction names as [|name names IH]; intros snapshots;
    cbn [collectSnapshots].
  - exists []. simpl. rewrite app_nil_r. split; [done|]. by intros ? ?%elem_of_nil.
  - assert (∀ warnings : list listLine,
      (∀ line, line ∈ warnings →
         ∃ n e, line = WarnManifest n e ∧ n ∈ names ∧
                ∃ gz, store !! n = Some (EntFile gz) ∧ ReadManifest (EntFile gz) = Err e) →
      (∀ line, line ∈ warnings →
         ∃ n e, line = WarnManifest n e ∧ n ∈ name :: names ∧
                ∃ gz, store !! n = Some (EntFile gz) ∧ ReadManifest (EntFile gz) = Err e))
      as Hweak.
    { intros warnings Hw line Hline. destruct (Hw line Hline) as (n & e & ? & ? & ?).
      exists n, e. split; [done|]. split; [by right|done]. }
    assert (omap (readable store) (name :: names) =
            match readable store name with
            | Some y => y :: omap (readable store) names
            | None => omap (readable store) names
            end) as -> by done.
    unfold readable at 1.
    destruct (store !! name) as [[|gz]|] eqn:Hlook.
    + destruct (IH snapshots) as (warnings & -> & Hw). eauto.
    + destruct (Go.HasSuffix name ".tar.gz").
      2:{ destruct (IH snapshots) as (warnings & -> & Hw). eauto. }
      destruct (ReadManifest (EntFile gz)) as [m|e|p] eqn:Hread.
      * destruct (IH (snapshots ++ [{| infoPath := name; infoCommit := CommitHash m;
                                       infoTimestamp := Timestamp m;
                                       infoIndex := Index m |}]))
          as (warnings & -> & Hw).
        exists warnings. csimpl. rewrite <- app_assoc. split; [done|]. eauto.
      * destruct (IH snapshots) as (warnings & -> & Hw).
        exists (WarnManifest name e :: warnings). split; [done|].
        intros line [->|Hline]%elem_of_cons; [|by eauto].
        exists name, e. split; [done|]. split; [left|]. eauto.
      * by apply ReadManifest_no_panic in Hread.
    + destruct (IH snapshots) as (warnings & -> & Hw). eauto.
Qed.

Lemma printSnapshots_entries currentCommit snapshots :
  omap entryOf (printSnapshots currentCommit snapshots) =
    (fun s => (infoIndex s, formatDateTime (infoTimestamp s),
               Z.of_nat (String.length (infoPath s)))) <$> snapshots.
Proof.
  revert currentCommit. induction snapshots as [|s l IH]; intros cur; [done|]. simpl.
  destruct (negb (String.eqb (infoCommit s) cur)).
  - rewrite omap_app. destruct (negb (String.eqb cur EmptyString)); csimpl;
      by rewrite IH.
  - csimpl. by rewrite IH.
Qed.

Lemma printSnapshots_headers currentCommit snapshots :
  omap headerOf (printSnapshots currentCommit snapshots) =
    commitChanges currentCommit (infoCommit <$> snapshots).
Proof.
  revert currentCommit. induction snapshots as [|s l IH]; intros cur; [done|]. csimpl.
  destruct (negb (String.eqb (infoCommit s) cur)).
  - rewrite omap_app. destruct (negb (String.eqb cur EmptyString)); csimpl;
      by rewrite IH.
  - csimpl. by rewrite IH.
Qed.

(** Over commits that do not decrease, the commit lines increase. *)
Lemma commitChanges_sorted currentCommit commits :
  StronglySorted (fun x y => String.ltb y x = false) commits →
  Forall (fun c => String.ltb c currentCommit = false) commits →
  StronglySorted (fun x y => String.ltb x y = true)
                 (commitChanges currentCommit commits) ∧
  Forall (fun c => String.ltb currentCommit c = true)
         (commitChanges currentCommit commits).
Proof.
  intros Hs. revert currentCommit.
  induction Hs as [|c l Hs IH Hc]; intros cur Hall; simpl; [by split; constructor|].
  apply Forall_cons in Hall as [Hcur Hall].
  destruct (String.eqb_spec c cur) as [->|Hne]; simpl; [by apply IH|].
  destruct (IH c Hc) as [IH1 IH2].
  pose proof (ltb_false_ne _ _ Hcur Hne) as Hlt.
  split; constructor; try done.
  eapply Forall_impl; [done|]. intros x Hx. by eapply ltb_trans.
Qed.

Lemma elem_of_commitChanges currentCommit commits c :
  c ∈ commitChanges currentCommit commits → c ∈ commits.
Proof.
  revert currentCommit. induction commits as [|x l IH]; intros cur; simpl; [done|].
  destruct (negb (String.eqb x cur)).
  - intros [->|?]%elem_of_cons; [left|right; eauto].
  - intros ?. right. eauto.
Qed.

Lemma commitChanges_elem_of currentCommit commits c :
  c ∈ commits → c ≠ currentCommit → c ∈ commitChanges currentCommit commits.
Proof.
  revert currentCommit. induction commits as [|x l IH]; intros cur; simpl;
    [by intros ?%elem_of_nil|].
  intros Hin Hne. destruct (String.eqb_spec x cur) as [->|Hx]; simpl.
  - apply elem_of_cons in Hin as [?|Hin]; [done|]. by apply IH.
  - destruct (decide (c = x)) as [->|Hcx]; [left|].
    apply elem_of_cons in Hin as [?|Hin]; [done|]. right. by apply IH.
Qed.

Context `{SliceSort}.

(** X20. On a snapshots directory whose entries can be listed and
    opened, [listCmd] always completes: an archive whose manifest cannot
    be read costs a warning, never the listing.  There is one entry line for
    each archive with a readable manifest, with the index and the time of
    its manifest; the number it prints as the count of files is the
    length of the archive's file name, whatever the manifest's file table
    holds. *)
Theorem listCmd_entries (store : gmap string dirent) :
  ∃ out,
    listCmd store = Ok out ∧
    omap entryOf out ≡ₚ
      (fun '(name, m) => (Index m, formatDateTime (Timestamp m),
                          Z.of_nat (String.length name))) <$> listed store ∧
    (listed store = [] → NoSnapshotsFound ∈ out) ∧
    ∀ name e, WarnManifest name e ∈ out →
      ∃ gz, store !! name = Some (EntFile gz) ∧ ReadManifest (EntFile gz) = Err e.
Proof.
  unfold listCmd.
  destruct (collectSnapshots_listed store (Go.SortStrings (elements (dom store))) [])
    as (warnings & -> & Hw).
  fold (listed store). simpl.
  set (infos := (fun '(name, m) => _) <$> listed store).
  assert (omap entryOf warnings = []) as Hwe.
  { clear -Hw. induction warnings as [|line warnings IH]; [done|]. csimpl.
    destruct (Hw line ltac:(left)) as (n & e & -> & _). simpl.
    apply IH. intros l Hl. apply Hw. by right. }
  assert (∀ name e, WarnManifest name e ∈ warnings →
            ∃ gz, store !! name = Some (EntFile gz) ∧ ReadManifest (EntFile gz) = Err e)
    as Hwarn.
  { intros name e Hin. destruct (Hw _ Hin) as (n & e' & [= <- <-] & _ & ?). done. }
  assert (Go.len (sortSlice lessInfo infos) = Go.len infos) as Hlen
    by (unfold Go.len; by rewrite sortSlice_perm).
  rewrite Hlen. destruct (Z.eqb_spec (Go.len infos) 0) as [Hz|Hnz].
  - eexists. split; [done|].
    assert (listed store = []) as Hnil.
    { unfold infos, Go.len in Hz. rewrite length_fmap in Hz.
      destruct (listed store); [done|]. simpl in Hz. lia. }
    rewrite omap_app, Hwe, Hnil. simpl. split; [done|]. split.
    + intros _. apply elem_of_app. right. left.
    + intros name e [Hin|Hin]%elem_of_app; [by apply Hwarn|].
      by apply list_elem_of_singleton in Hin.
  - eexists. split; [done|]. rewrite omap_app, Hwe. csimpl.
    rewrite printSnapshots_entries. split; [|split].
    + rewrite sortSlice_perm. unfold infos. rewrite <- list_fmap_compose.
      erewrite list_fmap_ext; [done|]. by intros i [? ?] _.
    + intros Hnil. unfold infos in Hnz. rewrite Hnil in Hnz. done.
    + intros name e [Hin|Hin]%elem_of_app; [by apply Hwarn|].
      apply elem_of_cons in Hin as [?|Hin]; [done|].
      apply elem_of_cons in Hin as [?|Hin]; [done|].
      exfalso. clear -Hin. revert Hin. generalize EmptyString.
      induction (sortSlice lessInfo infos) as [|s l IH]; intros cur; simpl;
        [by intros ?%elem_of_nil|].
      destruct (negb (String.eqb (infoCommit s) cur)).
      * rewrite elem_of_app, !elem_of_cons.
        intros [Hb|[?|[?|?]]]; [|done|done|by eapply IH].
        destruct (negb (String.eqb cur EmptyString)); [|by apply elem_of_nil in Hb].
        by apply list_elem_of_singleton in Hb.
      * rewrite elem_of_cons. intros [?|?]; [done|by eapply IH].
Qed.

(** X21. The listing is grouped by commit: the commit lines come in
    strictly ascending order of the commit hash, so no commit has two;
    each is the commit of an archive with a readable manifest, and every
    such commit has its line (the empty commit hash apart, for which none
    is printed). *)
Theorem listCmd_commit_lines (store : gmap string dirent) :
  ∃ out,
    listCmd store = Ok out ∧
    StronglySorted (fun x y => String.ltb x y = true) (omap headerOf out) ∧
    (∀ c, c ∈ omap headerOf out →
          ∃ name m, (name, m) ∈ listed store ∧ CommitHash m = c) ∧
    (∀ name m, (name, m) ∈ listed store → CommitHash m ≠ EmptyString →
               CommitHash m ∈ omap headerOf out).
Proof.
  unfold listCmd.
  destruct (collectSnapshots_listed store (Go.SortStrings (elements (dom store))) [])
    as (warnings & -> & Hw).
  fold (listed store). simpl.
  set (infos := (fun '(name, m) => _) <$> listed store).
  assert (omap headerOf warnings = []) as Hwe.
  { clear -Hw. induction warnings as [|line warnings IH]; [done|]. csimpl.
    destruct (Hw line ltac:(left)) as (n & e & -> & _). simpl.
    apply IH. intros l Hl. apply Hw. by right. }
  destruct (Z.eqb_spec (Go.len (sortSlice lessInfo infos)) 0) as [Hz|Hnz].
  - eexists. split; [done|]. rewrite omap_app, Hwe. simpl.
    split; [constructor|]. split; [by intros c ?%elem_of_nil|].
    intros name m Hin _. exfalso.
    unfold Go.len in Hz. rewrite sortSlice_perm in Hz. unfold infos in Hz.
    rewrite length_fmap in Hz. destruct (listed store); [by apply elem_of_nil in Hin|].
    simpl in Hz. lia.
  - eexists. split; [done|]. rewrite omap_app, Hwe. csimpl.
    rewrite printSnapshots_headers.
    pose proof (sortSlice_sorted lessInfo infos lessInfo_strictWeakOrder) as Hsorted.
    assert (StronglySorted (fun x y => String.ltb y x = false)
              (infoCommit <$> sortSlice lessInfo infos)) as Hcs.
    { apply (StronglySorted_fmap _ (fun a b => lessInfo b a = false)); [|done].
      intros a b. unfold lessInfo.
      destruct (String.eqb_spec (infoCommit b) (infoCommit a)) as [->|]; simpl; [|done].
      intros _. apply ltb_irrefl. }
    split; [|split].
    + apply commitChanges_sorted; [done|].
      apply Forall_forall. intros c _. unfold String.ltb.
      by destruct c.
    + intros c Hc%elem_of_commitChanges.
      apply list_elem_of_fmap in Hc as (s & -> & Hs).
      rewrite sortSlice_perm in Hs. unfold infos in Hs.
      apply list_elem_of_fmap in Hs as ([name m] & -> & Hin). eauto.
    + intros name m Hin Hne. apply commitChanges_elem_of; [|done].
      apply list_elem_of_fmap.
      exists {| infoPath := name; infoCommit := CommitHash m;
                infoTimestamp := Timestamp m; infoIndex := Index m |}.
      split; [done|]. rewrite sortSlice_perm. unfold infos.
      apply list_elem_of_fmap. by exists (name, m).
Qed.
End ListFacts.

Lemma listCmd_entries_witness :
  ∃ out,
    @listCmd binary_json merge_slice_sort (snapshots demoWorld2) = Ok out ∧
    omap entryOf out ≡ₚ
      [(0%Z, "2025-07-26 02:33:00", 29%Z); (1%Z, "2025-07-27 10:15:42", 29%Z)].
Proof.
  destruct (@listCmd_entries binary_json merge_slice_sort (snapshots demoWorld2))
    as (out & Hrun & Hperm & _).
  exists out. split; [exact Hrun|].
  assert ((fun '(name, m) => (Index m, formatDateTime (Timestamp m),
                              Z.of_nat (String.length name)))
            <$> @listed binary_json (snapshots demoWorld2) =
          [(0%Z, "2025-07-26 02:33:00", 29%Z); (1%Z, "2025-07-27 10:15:42", 29%Z)])
    as Hl by (vm_compute; reflexivity).
  rewrite <- Hl. exact Hperm.
Defined.

(** ** Inspecting *)

Section InspectFacts.
Context `{PathMatch} `{JSON}.

Lemma inspectLines_files `{MapOrder} verbose manifest :
  omap detailFileOf (inspectLines verbose manifest) =
    Go.SortStrings (elements (dom (Files manifest))) ∧
  FilesTotal (Z.of_nat (size (Files manifest))) ∈ inspectLines verbose manifest.
Proof.
  unfold inspectLines. rewrite foldl_snoc_app, app_nil_l.
  rewrite (SortStrings_perm (keysOf (dom (Files manifest)))
             (elements (dom (Files manifest)))) by apply keysOf_perm.
  set (files := Go.SortStrings (elements (dom (Files manifest)))).
  assert (Go.len files = Z.of_nat (size (Files manifest))) as Hlen.
  { unfold Go.len, files, Go.SortStrings. rewrite merge_sort_Permutation.
    by rewrite <- size_dom. }
  rewrite Hlen. clearbody files. split.
  - assert (omap detailFileOf
              (mjoin ((fun file =>
                 DetailFile file ::
                 (if verbose
                  then [DetailSHA256 (default EmptyString (Files manifest !! file))]
                  else [])) <$> files)) = files) as Hfiles.
    { clear Hlen. induction files as [|f files IH]; [done|]. csimpl.
      destruct verbose; csimpl; by rewrite IH. }
    csimpl. rewrite !omap_app. csimpl. rewrite Hfiles.
    by destruct (_ >? _)%Z; destruct (_ >? _)%Z.
  - do 9 apply list_elem_of_further. rewrite !elem_of_app. right. right. left.
Qed.

(** X22. What [inspectCmd] shows does not depend on the order in which
    the file table of the manifest is ranged over; it lists every file of
    the manifest once, in ascending order, under a total that is their
    number. *)
Theorem inspectCmd_report (o1 o2 : MapOrder) (commitHash : string) (snapIndex : Z)
    (verbose : bool) (store : gmap string dirent) :
  @inspectCmd _ _ o1 commitHash snapIndex verbose store =
  @inspectCmd _ _ o2 commitHash snapIndex verbose store ∧
  ∀ out, @inspectCmd _ _ o1 commitHash snapIndex verbose store = Ok out →
    ∃ path file manifest,
      inspectSelect store commitHash snapIndex = Ok path ∧
      openSnapshot store path = Some file ∧
      ReadManifest file = Ok manifest ∧
      omap detailFileOf out = Go.SortStrings (elements (dom (Files manifest))) ∧
      FilesTotal (Z.of_nat (size (Files manifest))) ∈ out.
Proof.
  unfold inspectCmd.
  destruct (inspectSelect store commitHash snapIndex) as [path| |] eqn:Hsel;
    [|by split..].
  destruct (openSnapshot store path) as [file|] eqn:Hopen; [|by split].
  destruct (ReadManifest file) as [manifest| |] eqn:Hread; [|by split..].
  split.
  - f_equal. unfold inspectLines. rewrite !foldl_snoc_app, !app_nil_l.
    by rewrite (SortStrings_perm (@keysOf o1 (dom (Files manifest)))
                  (@keysOf o2 (dom (Files manifest))))
      by (by rewrite !keysOf_perm).
  - intros out [= <-]. exists path, file, manifest.
    do 3 (split; [done|]). apply inspectLines_files.
Qed.
End InspectFacts.

(** ** Initialising *)

Section InitFacts.
Context `{YAML}.
Implicit Types (t : gmap string node) (p : string).

(** A hook that is installed holds the given text, whatever was there;
    every other existing path is as before. *)
Lemma InstallHook_installed t gitDir hookName content t' :
  InstallHook (Some gitDir) t hookName content = (t', None) →
  (∃ m, t' !! hookPath gitDir hookName = Some (File m (list_byte_of_string content)) ∧
        (t !! hookPath gitDir hookName = None → m = 493%Z) ∧
        (∀ m0 d0, t !! hookPath gitDir hookName = Some (File m0 d0) → m = m0)) ∧
  ∀ p n, t !! p = Some n → p ≠ hookPath gitDir hookName → t' !! p = Some n.
Proof.
  unfold InstallHook. set (path := hookPath gitDir hookName).
  pose proof (MkdirAll_other t (Dir path) path) as Hmk.
  pose proof (fun p n => MkdirAll_keeps t (Dir path) p n) as Hkeep.
  destruct (MkdirAll t (Dir path)) as [t1 [|]]; simpl in *; [|done].
  destruct (OpenFile t1 path 493) as [t2|] eqn:Ho; [|done].
  intros [= <-]. split.
  - unfold OpenFile in Ho. destruct Hmk as [Heq|[Hn Hf]]; [|by rewrite Hf in Ho].
    rewrite Heq in Ho. destruct (t !! path) as [[m0 d0|]|] eqn:Ht; [| done |].
    + injection Ho as <-. exists m0.
      unfold Copy. rewrite lookup_insert_eq, lookup_insert_eq.
      split; [done|]. split; [done|]. by intros ?? [= -> _].
    + destruct (isFolder t1 (Dir path)); [|done]. injection Ho as <-.
      exists 493%Z. unfold Copy. rewrite lookup_insert_eq, lookup_insert_eq. by split.
  - intros p n Hp Hne. rewrite Copy_frame by done.
    rewrite (OpenFile_frame _ _ _ _ _ Ho) by done. by apply Hkeep.
Qed.

Lemma hookPath_inj gitDir a b : hookPath gitDir a = hookPath gitDir b → a = b.
Proof. apply Join_inj. Qed.

(** X23. [initCmd] on a repository whose git directory is known.  When
    it succeeds with [--hooks], the configuration on disk has the hooks
    switched on, and loading it returns that.  When it succeeds with the
    hooks switched on (by the flag or by the configuration), both hook
    files hold the scripts of [initCmd], whatever they held before, and
    every other path of the tree is as it was; otherwise the tree is
    untouched and the tip is printed. *)
Theorem initCmd_installs_hooks (setupHooks : bool) (gitDir : string)
    (s s' : ConfigStore) (t t' : gmap string node) (out : list initLine) :
  initCmd setupHooks (Some gitDir) s t = (s', t', out, None) →
  ∃ cfg,
    (if setupHooks
     then LoadConfig s' = (s', inr cfg) ∧ HooksEnabled cfg = true
     else LoadConfig s = (s', inr cfg)) ∧
    (if HooksEnabled cfg
     then out = [HooksInstalled; Initialized; ConfigFileLine] ∧
          (∃ m, t' !! hookPath gitDir "pre-commit" =
                  Some (File m (list_byte_of_string preCommitHook))) ∧
          (∃ m, t' !! hookPath gitDir "post-checkout" =
                  Some (File m (list_byte_of_string postCheckoutHook))) ∧
          ∀ p n, t !! p = Some n →
                 p ≠ hookPath gitDir "pre-commit" →
                 p ≠ hookPath gitDir "post-checkout" → t' !! p = Some n
     else out = [Initialized; ConfigFileLine; HooksTip] ∧ t' = t).
Proof.
  unfold initCmd. destruct (LoadConfig s) as [s1 [e|cfg0]] eqn:Hl; [done|].
  destruct (LoadConfig_ok _ _ _ Hl) as (Hr & Hso & Hro).
  assert (∀ (cfg : Config) (s2 : ConfigStore),
    match (if HooksEnabled cfg then
             match InstallHook (Some gitDir) t "pre-commit" preCommitHook with
             | (t1, Some e) => (s2, t1, [], Some (ErrInstallPreCommit e))
             | (t1, None) =>
                 match InstallHook (Some gitDir) t1 "post-checkout" postCheckoutHook with
                 | (t2, Some e) => (s2, t2, [], Some (ErrInstallPostCheckout e))
                 | (t2, None) =>
                     (s2, t2, [HooksInstalled; Initialized; ConfigFileLine], None)
                 end
             end
           else (s2, t, [Initialized; ConfigFileLine; HooksTip], None))
    with
    | (s3, t3, out3, None) =>
        s3 = s2 ∧
        if HooksEnabled cfg
        then out3 = [HooksInstalled; Initialized; ConfigFileLine] ∧
             (∃ m, t3 !! hookPath gitDir "pre-commit" =
                     Some (File m (list_byte_of_string preCommitHook))) ∧
             (∃ m, t3 !! hookPath gitDir "post-checkout" =
                     Some (File m (list_byte_of_string postCheckoutHook))) ∧
             ∀ p n, t !! p = Some n →
                    p ≠ hookPath gitDir "pre-commit" →
                    p ≠ hookPath gitDir "post-checkout" → t3 !! p = Some n
        else out3 = [Initialized; ConfigFileLine; HooksTip] ∧ t3 = t
    | _ => True
    end) as Hhooks.
  { intros cfg s2. destruct (HooksEnabled cfg); [|done].
    destruct (InstallHook (Some gitDir) t "pre-commit" preCommitHook)
      as [t1 [e|]] eqn:H1; [done|].
    destruct (InstallHook (Some gitDir) t1 "post-checkout" postCheckoutHook)
      as [t2 [e|]] eqn:H2; [done|].
    apply InstallHook_installed in H1 as [(m1 & Hm1 & _) Hk1].
    apply InstallHook_installed in H2 as [(m2 & Hm2 & _) Hk2].
    split; [done|]. split; [done|]. split; [|split; [by eauto|]].
    - exists m1. apply Hk2; [done|]. intros Heq%hookPath_inj. discriminate.
    - intros p n Hp Hn1 Hn2. apply Hk2; [|done]. by apply Hk1. }
  destruct setupHooks.
  - set (cfg := {| Retention := Retention cfg0; SnapshotOn := SnapshotOn cfg0;
                   RestoreOn := RestoreOn cfg0; HooksEnabled := true;
                   Exclude := Exclude cfg0; Include := Include cfg0 |}).
    destruct (SaveConfig cfg s1) as [s2 [e|]] eqn:Hsave; [done|].
    specialize (Hhooks cfg s2). intros Hrun. rewrite Hrun in Hhooks.
    destruct Hhooks as [-> Hh]. exists cfg. split; [|done].
    split; [|done]. by apply (SaveConfig_then_LoadConfig cfg s1).
  - specialize (Hhooks cfg0 s1). intros Hrun. rewrite Hrun in Hhooks.
    destruct Hhooks as [-> Hh]. by exists cfg0.
Qed.
End InitFacts.

Lemma initCmd_installs_hooks_witness :
  ∃ m, (@initCmd binary_yaml true (Some ".git") freshStore ∅).1.1.2
         !! ".git/hooks/pre-commit" =
       Some (File m (list_byte_of_string preCommitHook)).
Proof.
  destruct (@initCmd_installs_hooks binary_yaml true ".git" freshStore
              (@initCmd binary_yaml true (Some ".git") freshStore ∅).1.1.1
              ∅
              (@initCmd binary_yaml true (Some ".git") freshStore ∅).1.1.2
              (@initCmd binary_yaml true (Some ".git") freshStore ∅).1.2)
    as (cfg & [_ He] & Hh).
  - vm_compute. reflexivity.
  - rewrite He in Hh. destruct Hh as (_ & Hpre & _). exact Hpre.
Defined.
